(** * The pub/sub trigger path of Prow: [prow/pubsub/subscriber/subscriber.go]

    A shallow embedding of the subscriber: the three job handlers
    ([periodicJobHandler], [presubmitJobHandler], [postsubmitJobHandler]),
    [extractFromAttribute], [Subscriber.handleMessage] and
    [Subscriber.handleProwJob], followed by the properties proved about
    them.

    Go values are modelled as follows.
    - [string] is [String.string]; [len(s) == 0] is a test on
      [String.length].
    - An [error] is its message; the [nil] error is [None].
    - A [map[string]string] that is only read is a [gmap string string]
      (a nil map and an empty map read the same).  The label map of a job
      definition is written through by [handleProwJob], so it is a
      reference into a store of maps ([LabelMaps]); [nil] is [None].
    - Interfaces ([prowCfgClient], [ProwJobClient], [reportClient],
      [jobHandler]) are records of their methods.
    - Counters, the store of label maps and the calls made on the
      collaborators are threaded through a state monad [M]. *)

From stdpp Require Import base option list strings gmap fin_maps.

Open Scope string_scope.
Open Scope list_scope.

(** An [error] value is represented by the text of [err.Error()]. *)
Definition error : Type := string.

(** A reference to a Go map held by a job definition. *)
Definition loc : Type := positive.

(** ** Types of the packages the subscriber imports

    Only the fields the subscriber reads or writes are kept. *)

(** [k8s.io/api/core/v1] *)
Module coreapi.

Record EnvVar : Type := mkEnvVar { Name : string; Value : string }.

Record Container : Type := mkContainer
  { ContainerName : string; Image : string; Env : list EnvVar }.

Record PodSpec : Type := mkPodSpec { Containers : list Container }.

End coreapi.

(** [k8s.io/test-infra/prow/apis/prowjobs/v1] *)
Module prowapi.

Record Pull : Type := mkPull { Number : nat; SHA : string }.

Record Refs : Type := mkRefs
  { Org : string; Repo : string; BaseRef : string; BaseSHA : string;
    Pulls : list Pull }.

Inductive ProwJobState : Type :=
| TriggeredState | PendingState | SuccessState
| FailureState | AbortedState | ErrorState.

Record ProwJobSpec : Type := mkProwJobSpec
  { Job : string; Cluster : string; SpecRefs : option Refs;
    PodSpec : option coreapi.PodSpec }.

Record ProwJobStatus : Type := mkProwJobStatus
  { State : ProwJobState; Description : string }.

Record ProwJob : Type := mkProwJob
  { Name : string;
    Labels : gmap string string;
    Annotations : gmap string string;
    Spec : ProwJobSpec;
    Status : ProwJobStatus }.

(** The zero value [prowapi.ProwJobSpec{}]. *)
Definition emptySpec : ProwJobSpec :=
  {| Job := ""; Cluster := ""; SpecRefs := None; PodSpec := None |}.

End prowapi.

(** [k8s.io/test-infra/prow/config] *)
Module config.

Record JobBase : Type := mkJobBase
  { Name : string; Labels : option loc; Cluster : string;
    Spec : option coreapi.PodSpec }.

Record Brancher : Type := mkBrancher
  { SkipBranches : list string; Branches : list string }.

Record Periodic : Type := mkPeriodic
  { PeriodicBase : JobBase; Cron : string }.

Record Presubmit : Type := mkPresubmit
  { PresubmitBase : JobBase; PresubmitBrancher : Brancher }.

Record Postsubmit : Type := mkPostsubmit
  { PostsubmitBase : JobBase; PostsubmitBrancher : Brancher }.

End config.

(** The embedded [JobBase]: its fields are read through the job. *)
Coercion config.PeriodicBase : config.Periodic >-> config.JobBase.
Coercion config.PresubmitBase : config.Presubmit >-> config.JobBase.
Coercion config.PostsubmitBase : config.Postsubmit >-> config.JobBase.

(** [k8s.io/test-infra/prow/git/v2]: the subscriber only tests a
    [git.ClientFactory] against [nil] and hands it to the configuration. *)
Module git.

Inductive ClientFactory : Type := Factory (handle : nat).

End git.

(** [ProwJobEvent] contains the minimum information required to start a
    ProwJob. *)
Record ProwJobEvent : Type := mkProwJobEvent
  { Name : string;
    Refs : option prowapi.Refs;
    Envs : gmap string string;
    Labels : gmap string string;
    Annotations : gmap string string }.

(** ** Functions the subscriber calls that live outside this file

    [pjutil] and the [CouldRun] methods of [config] belong to other
    packages; [%q], [json.Unmarshal] and the iteration order of [range]
    over a map belong to the Go runtime.  They are parameters of the
    development. *)

Class GoRuntime : Type :=
  { (** the [%q] verb of [fmt] *)
    Quote : string → string;
    (** [json.Unmarshal(data, pe)] on a zero [ProwJobEvent] *)
    Unmarshal : list Byte.byte → ProwJobEvent * option error;
    (** the order in which the [n]-th [range] loop of a call visits a map *)
    rangeMap : nat → gmap string string → list (string * string) }.

(** Go visits every entry of a map exactly once, in an unspecified order. *)
Definition rangeMap_lawful `{GoRuntime} : Prop :=
  ∀ n (m : gmap string string), rangeMap n m ≡ₚ map_to_list m.

Class Pjutil : Type :=
  { PeriodicSpec : config.Periodic → prowapi.ProwJobSpec;
    PresubmitSpec : config.Presubmit → prowapi.Refs → prowapi.ProwJobSpec;
    PostsubmitSpec : config.Postsubmit → prowapi.Refs → prowapi.ProwJobSpec;
    (** [NewProwJob(spec, extraLabels, extraAnnotations)]; a [nil] label
        argument is [None] *)
    NewProwJob : prowapi.ProwJobSpec → option (gmap string string) →
                 gmap string string → prowapi.ProwJob }.

Class ConfigMethods : Type :=
  { PresubmitCouldRun : config.Presubmit → string → bool;
    PostsubmitCouldRun : config.Postsubmit → string → bool }.

(** ** Constants *)

Definition prowEventType : string := "prow.k8s.io/pubsub.EventType".
Definition periodicProwJobEvent : string :=
  "prow.k8s.io/pubsub.PeriodicProwJobEvent".
Definition presubmitProwJobEvent : string :=
  "prow.k8s.io/pubsub.PresubmitProwJobEvent".
Definition postsubmitProwJobEvent : string :=
  "prow.k8s.io/pubsub.PostsubmitProwJobEvent".

(** ** Collaborators *)

(** The queries made on the configuration.  The SHA getters handed to
    [GetPresubmits] and [GetPostsubmits] are closures that return a fixed
    string and a nil error, so they are passed as the strings. *)
Record prowCfgClient : Type := mkProwCfgClient
  { AllPeriodics : list config.Periodic;
    GetPresubmits : git.ClientFactory → string → string → list string →
                    list config.Presubmit * option error;
    GetPresubmitsStatic : string → list config.Presubmit;
    GetPostsubmits : git.ClientFactory → string → string →
                     list config.Postsubmit * option error;
    GetPostsubmitsStatic : string → list config.Postsubmit }.

(** [ProwJobClient.Create]; only the error of its result is used. *)
Record ProwJobClient : Type := mkProwJobClient
  { Create : prowapi.ProwJob → option error }.

(** [reportClient]; only the error of [Report]'s result is used. *)
Record reportClient : Type := mkReportClient
  { Report : prowapi.ProwJob → option error;
    ShouldReport : prowapi.ProwJob → bool }.

(** What [messageInterface] exposes of a [pubsub.Message]. *)
Record message : Type := mkMessage
  { getAttributes : gmap string string;
    getPayload : list Byte.byte;
    getID : string }.

(** ** State and observable calls *)

Inductive Level : Type := DebugLevel | InfoLevel | WarnLevel | ErrorLevel.

Inductive CfgQuery : Type :=
| QAllPeriodics
| QGetPresubmitsStatic (identifier : string)
| QGetPresubmits (gc : git.ClientFactory) (identifier baseSHA : string)
                 (headSHAs : list string)
| QGetPostsubmitsStatic (identifier : string)
| QGetPostsubmits (gc : git.ClientFactory) (identifier baseSHA : string).

Inductive Effect : Type :=
| Logged (lvl : Level) (msg : string)
| Queried (q : CfgQuery)
| CalledCreate (pj : prowapi.ProwJob)
| CalledShouldReport (pj : prowapi.ProwJob)
| CalledReport (pj : prowapi.ProwJob).

(** A [prometheus.CounterVec] with the single label [subscription]:
    the children that exist, with their values. *)
Abbreviation CounterVec := (gmap string nat).

Record World : Type := mkWorld
  { MessageCounter : CounterVec;
    ErrorCounter : CounterVec;
    LabelMaps : gmap loc (gmap string string);
    Trace : list Effect }.

Definition M (A : Type) : Type := World → A * World.

#[global] Instance M_ret : MRet M := λ A a w, (a, w).
#[global] Instance M_bind : MBind M :=
  λ A B f c w, let (a, w') := c w in f a w'.

Definition emit (e : Effect) : M unit := λ w,
  (tt, {| MessageCounter := MessageCounter w; ErrorCounter := ErrorCounter w;
          LabelMaps := LabelMaps w; Trace := Trace w ++ [e] |}).

Definition log (lvl : Level) (msg : string) : M unit := emit (Logged lvl msg).

(** [vec.With(labels)] returns the child for the label value and creates
    it, at zero, when it does not exist yet. *)
Definition CounterVec_With (sub : string) (vec : CounterVec) : CounterVec :=
  match vec !! sub with
  | Some _ => vec
  | None => <[sub := 0]> vec
  end.

(** [vec.With(labels).Inc()] *)
Definition CounterVec_With_Inc (sub : string) (vec : CounterVec) : CounterVec :=
  <[sub := S (default 0 (vec !! sub))]> vec.

(** The value a counter reports for a subscription. *)
Definition counterValue (vec : CounterVec) (sub : string) : nat :=
  default 0 (vec !! sub).

Definition MessageCounter_With_Inc (sub : string) : M unit := λ w,
  (tt, {| MessageCounter := CounterVec_With_Inc sub (MessageCounter w);
          ErrorCounter := ErrorCounter w;
          LabelMaps := LabelMaps w; Trace := Trace w |}).

Definition ErrorCounter_With (sub : string) : M unit := λ w,
  (tt, {| MessageCounter := MessageCounter w;
          ErrorCounter := CounterVec_With sub (ErrorCounter w);
          LabelMaps := LabelMaps w; Trace := Trace w |}).

(** Reading the map behind a reference. *)
Definition readMap (r : loc) : M (gmap string string) := λ w,
  (default ∅ (LabelMaps w !! r), w).

(** [make(map[string]string)] *)
Definition makeMap : M loc := λ w,
  let r := fresh (dom (LabelMaps w)) in
  (r, {| MessageCounter := MessageCounter w; ErrorCounter := ErrorCounter w;
         LabelMaps := <[r := ∅]> (LabelMaps w); Trace := Trace w |}).

(** [labels[k] = v] *)
Definition mapStore (r : loc) (k v : string) : M unit := λ w,
  (tt, {| MessageCounter := MessageCounter w; ErrorCounter := ErrorCounter w;
          LabelMaps := <[r := <[k := v]> (default ∅ (LabelMaps w !! r))]>
                         (LabelMaps w);
          Trace := Trace w |}).

(** A [for] loop with an effectful body. *)
Fixpoint forEach {A : Type} (l : list A) (body : A → M unit) : M unit :=
  match l with
  | [] => mret tt
  | x :: l' => body x ;; forEach l' body
  end.

(** ** The job handlers *)

(** The three results of [getProwJobSpec]. *)
Definition SpecResult : Type :=
  option prowapi.ProwJobSpec * option loc * option error.

(** [jobHandler] handles job type specific logic. *)
Record jobHandler : Type := mkJobHandler
  { getProwJobSpec : prowCfgClient → ProwJobEvent → M SpecResult }.

Section Subscriber.

Context `{GoRuntime} `{Pjutil} `{ConfigMethods}.

(** The loop of [periodicJobHandler.getProwJobSpec]: the first job with
    the event's name. *)
Fixpoint periodicScan (jobs : list config.Periodic) (name : string)
  : option config.Periodic :=
  match jobs with
  | [] => None
  | job :: rest =>
      if String.eqb (config.Name job) name then Some job
      else periodicScan rest name
  end.

Definition periodic_getProwJobSpec
    (cfg : prowCfgClient) (pe : ProwJobEvent) : M SpecResult :=
  emit (Queried QAllPeriodics) ;;
  match periodicScan (AllPeriodics cfg) (Name pe) with
  | None =>
      mret (None, None,
            Some ("failed to find associated periodic job " +:+
                  Quote (Name pe)))
  | Some periodicJob =>
      mret (Some (PeriodicSpec periodicJob), config.Labels periodicJob, None)
  end.

Definition periodicJobHandler : jobHandler :=
  {| getProwJobSpec := periodic_getProwJobSpec |}.

(** The loop shared, word for word, by the presubmit and the postsubmit
    handler: jobs that could not run on [branch] are skipped, a second
    job with the event's name returns at once with an error ([inl]), and
    otherwise the loop ends with the job found so far ([inr]). *)
Fixpoint scanJobs {J : Type} (CouldRun : J → string → bool)
    (jobName : J → string) (branch name : string)
    (jobs : list J) (found : option J) : error + option J :=
  match jobs with
  | [] => inr found
  | job :: rest =>
      if negb (CouldRun job branch) then
        scanJobs CouldRun jobName branch name rest found
      else if String.eqb (jobName job) name then
        match found with
        | Some _ => inl (name +:+ " matches multiple prow jobs")
        | None => scanJobs CouldRun jobName branch name rest (Some job)
        end
      else scanJobs CouldRun jobName branch name rest found
  end.

Definition fail (msg : error) : M SpecResult := mret (None, None, Some msg).

(** [presubmitJobHandler{GitClient}.getProwJobSpec] *)
Definition presubmit_getProwJobSpec (GitClient : option git.ClientFactory)
    (cfg : prowCfgClient) (pe : ProwJobEvent) : M SpecResult :=
  match Refs pe with
  | None => fail "Refs must be supplied"
  | Some refs =>
      if Nat.eqb (String.length (prowapi.Org refs)) 0 then
        fail "org must be supplied"
      else if Nat.eqb (String.length (prowapi.Repo refs)) 0 then
        fail "repo must be supplied"
      else if Nat.eqb (length (prowapi.Pulls refs)) 0 then
        fail "at least 1 Pulls is required"
      else if Nat.eqb (String.length (prowapi.BaseSHA refs)) 0 then
        fail "baseSHA must be supplied"
      else if Nat.eqb (String.length (prowapi.BaseRef refs)) 0 then
        fail "baseRef must be supplied"
      else
        let branch := prowapi.BaseRef refs in
        let orgRepo := prowapi.Org refs +:+ "/" +:+ prowapi.Repo refs in
        let baseSHAGetter := prowapi.BaseSHA refs in
        let headSHAGetters := map prowapi.SHA (prowapi.Pulls refs) in
        emit (Queried (QGetPresubmitsStatic orgRepo)) ;;
        let presubmits := GetPresubmitsStatic cfg orgRepo in
        presubmits ←
          match GitClient with
          | Some gc =>
              emit (Queried (QGetPresubmits gc orgRepo baseSHAGetter
                               headSHAGetters)) ;;
              let (presubmitsWithInrepoconfig, err) :=
                GetPresubmits cfg gc orgRepo baseSHAGetter headSHAGetters in
              match err with
              | Some _ =>
                  log DebugLevel "Failed to get presubmits" ;;
                  mret presubmits
              | None => mret presubmitsWithInrepoconfig
              end
          | None => mret presubmits
          end ;
        match scanJobs PresubmitCouldRun (λ j, config.Name j) branch
                (Name pe) presubmits None with
        | inl err => fail err
        | inr None =>
            fail ("failed to find associated presubmit job " +:+
                  Quote (Name pe))
        | inr (Some presubmitJob) =>
            mret (Some (PresubmitSpec presubmitJob refs),
                  config.Labels presubmitJob, None)
        end
  end.

Definition presubmitJobHandler (GitClient : option git.ClientFactory)
  : jobHandler :=
  {| getProwJobSpec := presubmit_getProwJobSpec GitClient |}.

(** [postsubmitJobHandler{GitClient}.getProwJobSpec] *)
Definition postsubmit_getProwJobSpec (GitClient : option git.ClientFactory)
    (cfg : prowCfgClient) (pe : ProwJobEvent) : M SpecResult :=
  match Refs pe with
  | None => fail "refs must be supplied"
  | Some refs =>
      if Nat.eqb (String.length (prowapi.Org refs)) 0 then
        fail "org must be supplied"
      else if Nat.eqb (String.length (prowapi.Repo refs)) 0 then
        fail "repo must be supplied"
      else if Nat.eqb (String.length (prowapi.BaseSHA refs)) 0 then
        fail "baseSHA must be supplied"
      else if Nat.eqb (String.length (prowapi.BaseRef refs)) 0 then
        fail "baseRef must be supplied"
      else
        let branch := prowapi.BaseRef refs in
        let orgRepo := prowapi.Org refs +:+ "/" +:+ prowapi.Repo refs in
        let baseSHAGetter := prowapi.BaseSHA refs in
        emit (Queried (QGetPostsubmitsStatic orgRepo)) ;;
        let postsubmits := GetPostsubmitsStatic cfg orgRepo in
        postsubmits ←
          match GitClient with
          | Some gc =>
              emit (Queried (QGetPostsubmits gc orgRepo baseSHAGetter)) ;;
              let (postsubmitsWithInrepoconfig, err) :=
                GetPostsubmits cfg gc orgRepo baseSHAGetter in
              match err with
              | Some _ =>
                  log DebugLevel
                      "Failed to get postsubmits from inrepoconfig" ;;
                  mret postsubmits
              | None => mret postsubmitsWithInrepoconfig
              end
          | None => mret postsubmits
          end ;
        match scanJobs PostsubmitCouldRun (λ j, config.Name j) branch
                (Name pe) postsubmits None with
        | inl err => fail err
        | inr None =>
            fail ("failed to find associated postsubmit job " +:+
                  Quote (Name pe))
        | inr (Some postsubmitJob) =>
            mret (Some (PostsubmitSpec postsubmitJob refs),
                  config.Labels postsubmitJob, None)
        end
  end.

Definition postsubmitJobHandler (GitClient : option git.ClientFactory)
  : jobHandler :=
  {| getProwJobSpec := postsubmit_getProwJobSpec GitClient |}.

(** ** The subscriber *)

Definition extractFromAttribute (attrs : gmap string string) (key : string)
  : string * option error :=
  match attrs !! key with
  | None => ("", Some ("unable to find " +:+ Quote key +:+
                       " from the attributes"))
  | Some value => (value, None)
  end.

(** [Subscriber]; [ConfigAgent] stands for [s.ConfigAgent.Config()],
    [Client] for the field [ProwJobClient], and the counters of [Metrics]
    are in the [World]. *)
Record Subscriber : Type := mkSubscriber
  { ConfigAgent : prowCfgClient;
    Client : ProwJobClient;
    GitClient : option git.ClientFactory;
    Reporter : reportClient }.

Definition withStatus (pj : prowapi.ProwJob) (st : prowapi.ProwJobStatus)
  : prowapi.ProwJob :=
  {| prowapi.Name := prowapi.Name pj;
     prowapi.Labels := prowapi.Labels pj;
     prowapi.Annotations := prowapi.Annotations pj;
     prowapi.Spec := prowapi.Spec pj;
     prowapi.Status := st |}.

(** The closure [reportProwJob] of [handleProwJob]. *)
Definition reportProwJob (s : Subscriber) (pj : prowapi.ProwJob)
    (state : prowapi.ProwJobState) (err : option error) : M unit :=
  let description :=
    match err with
    | Some e => "Failed creating prowjob: " +:+ e
    | None => "Successfully triggered prowjob."
    end in
  let pj := withStatus pj {| prowapi.State := state;
                             prowapi.Description := description |} in
  emit (CalledShouldReport pj) ;;
  if ShouldReport (Reporter s) pj then
    emit (CalledReport pj) ;;
    match Report (Reporter s) pj with
    | Some _ => log WarnLevel "Failed to report status."
    | None => mret tt
    end
  else mret tt.

Definition reportProwJobFailure (s : Subscriber) (pj : prowapi.ProwJob)
    (err : error) : M unit :=
  reportProwJob s pj prowapi.ErrorState (Some err).

Definition reportProwJobTriggered (s : Subscriber) (pj : prowapi.ProwJob)
  : M unit :=
  reportProwJob s pj prowapi.TriggeredState None.

(** The loop that denies a job that runs on a cluster that is not
    allowed. *)
Fixpoint clusterIsAllowed (allowedClusters : list string) (cluster : string)
  : bool :=
  match allowedClusters with
  | [] => false
  | allowedCluster :: rest =>
      if String.eqb allowedCluster "*" || String.eqb allowedCluster cluster
      then true
      else clusterIsAllowed rest cluster
  end.

(** [c.Env = append(c.Env, coreapi.EnvVar{Name: k, Value: v})] for the
    entries of the event's environment, in the order the loop over
    container [i] visits them. *)
Definition appendEnvs (pe : ProwJobEvent) (i : nat) (c : coreapi.Container)
  : coreapi.Container :=
  {| coreapi.ContainerName := coreapi.ContainerName c;
     coreapi.Image := coreapi.Image c;
     coreapi.Env :=
       foldl (λ env kv, env ++ [coreapi.mkEnvVar kv.1 kv.2])
             (coreapi.Env c) (rangeMap (S i) (Envs pe)) |}.

(** Adds / updates environments to containers. *)
Definition withEnvs (pe : ProwJobEvent) (pj : prowapi.ProwJob)
  : prowapi.ProwJob :=
  match prowapi.PodSpec (prowapi.Spec pj) with
  | None => pj
  | Some podSpec =>
      {| prowapi.Name := prowapi.Name pj;
         prowapi.Labels := prowapi.Labels pj;
         prowapi.Annotations := prowapi.Annotations pj;
         prowapi.Spec :=
           {| prowapi.Job := prowapi.Job (prowapi.Spec pj);
              prowapi.Cluster := prowapi.Cluster (prowapi.Spec pj);
              prowapi.SpecRefs := prowapi.SpecRefs (prowapi.Spec pj);
              prowapi.PodSpec :=
                Some {| coreapi.Containers :=
                          imap (appendEnvs pe)
                               (coreapi.Containers podSpec) |} |};
         prowapi.Status := prowapi.Status pj |}
  end.

(** Adds / updates labels from the prow job event: a job without labels
    gets a fresh map, and every label of the event is stored into the map,
    which is the job definition's own when it has one. *)
Definition mergeLabels (labels : option loc) (pe : ProwJobEvent)
  : M (gmap string string) :=
  labels ← match labels with
           | None => makeMap
           | Some r => mret r
           end ;
  forEach (rangeMap 0 (Labels pe)) (λ kv, mapStore labels kv.1 kv.2) ;;
  readMap labels.

Definition clusterNotAllowed (cluster : string) : error :=
  "cluster " +:+ cluster +:+
  " is not allowed. Can be fixed by defining this cluster under pubsub_triggers -> allowed_clusters".

Definition handleProwJob (s : Subscriber) (jh : jobHandler) (msg : message)
    (subscription : string) (allowedClusters : list string)
  : M (option error) :=
  let (pe, err) := Unmarshal (getPayload msg) in
  match err with
  | Some e => mret (Some e)
  | None =>
      '(prowJobSpec, labels, err) ← getProwJobSpec jh (ConfigAgent s) pe ;
      match err with
      | Some e =>
          log DebugLevel "Failed getting prowjob spec" ;;
          let prowJob :=
            NewProwJob prowapi.emptySpec None (Annotations pe) in
          reportProwJobFailure s prowJob e ;;
          mret (Some e)
      | None =>
          match prowJobSpec with
          | None => mret (Some "failed getting prowjob spec")
          | Some prowJobSpec =>
              if negb (clusterIsAllowed allowedClusters
                         (prowapi.Cluster prowJobSpec)) then
                let err := clusterNotAllowed (prowapi.Cluster prowJobSpec) in
                log WarnLevel "cluster not allowed" ;;
                let prowJob :=
                  NewProwJob prowJobSpec None (Annotations pe) in
                reportProwJobFailure s prowJob err ;;
                mret (Some err)
              else
                merged ← mergeLabels labels pe ;
                let prowJob :=
                  withEnvs pe (NewProwJob prowJobSpec (Some merged)
                                          (Annotations pe)) in
                emit (CalledCreate prowJob) ;;
                match Create (Client s) prowJob with
                | Some e =>
                    log ErrorLevel
                        ("failed to create job " +:+ Quote (Name pe) +:+
                         " as " +:+ Quote (prowapi.Name prowJob)) ;;
                    reportProwJobFailure s prowJob e ;;
                    mret (Some e)
                | None =>
                    log InfoLevel "Job created." ;;
                    reportProwJobTriggered s prowJob ;;
                    mret None
                end
          end
      end
  end.

(** The [switch] of [handleMessage]; [None] is its [default] case. *)
Definition selectHandler (s : Subscriber) (eType : string)
  : option jobHandler :=
  if String.eqb eType periodicProwJobEvent then Some periodicJobHandler
  else if String.eqb eType presubmitProwJobEvent then
    Some (presubmitJobHandler (GitClient s))
  else if String.eqb eType postsubmitProwJobEvent then
    Some (postsubmitJobHandler (GitClient s))
  else None.

Definition handleMessage (s : Subscriber) (msg : message)
    (subscription : string) (allowedClusters : list string)
  : M (option error) :=
  MessageCounter_With_Inc subscription ;;
  log InfoLevel "Received message" ;;
  let (eType, err) := extractFromAttribute (getAttributes msg)
                                           prowEventType in
  match err with
  | Some e =>
      log ErrorLevel "failed to read message" ;;
      ErrorCounter_With subscription ;;
      mret (Some e)
  | None =>
      match selectHandler s eType with
      | None =>
          log DebugLevel "Unsupported event type" ;;
          ErrorCounter_With subscription ;;
          mret (Some ("unsupported event type: " +:+ eType))
      | Some jh =>
          err ← handleProwJob s jh msg subscription allowedClusters ;
          match err with
          | Some _ =>
              log DebugLevel "failed to create Prow Job" ;;
              ErrorCounter_With subscription
          | None => mret tt
          end ;;
          mret err
      end
  end.

End Subscriber.

(** ** Running a computation *)

Definition appendTrace (w : World) (t : list Effect) : World :=
  {| MessageCounter := MessageCounter w; ErrorCounter := ErrorCounter w;
     LabelMaps := LabelMaps w; Trace := Trace w ++ t |}.

Ltac run :=
  unfold mbind, mret, M_bind, M_ret, emit, log, appendTrace; simpl.

(** ** Specification-level functions *)

Section Specification.

Context `{GoRuntime} `{Pjutil} `{ConfigMethods}.

(** The candidates that are branch-eligible and carry the event's name,
    in catalog order: first the branch filter, then the name. *)
Definition eligible {J : Type} (CouldRun : J → string → bool)
    (jobName : J → string) (branch name : string) (jobs : list J) : list J :=
  List.filter (λ j, String.eqb (jobName j) name)
              (List.filter (λ j, CouldRun j branch) jobs).

(** The four fields both kinds of event require. *)
Definition refsComplete (refs : prowapi.Refs) : Prop :=
  prowapi.Org refs ≠ "" ∧ prowapi.Repo refs ≠ "" ∧
  prowapi.BaseSHA refs ≠ "" ∧ prowapi.BaseRef refs ≠ "".

Definition orgRepoOf (refs : prowapi.Refs) : string :=
  prowapi.Org refs +:+ "/" +:+ prowapi.Repo refs.

(** The calls a handler makes to obtain its candidates. *)
Definition presubmitQueries (gc : option git.ClientFactory)
    (cfg : prowCfgClient) (refs : prowapi.Refs) : list Effect :=
  Queried (QGetPresubmitsStatic (orgRepoOf refs)) ::
  match gc with
  | None => []
  | Some g =>
      Queried (QGetPresubmits g (orgRepoOf refs) (prowapi.BaseSHA refs)
                 (map prowapi.SHA (prowapi.Pulls refs))) ::
      match (GetPresubmits cfg g (orgRepoOf refs) (prowapi.BaseSHA refs)
               (map prowapi.SHA (prowapi.Pulls refs))).2 with
      | Some _ => [Logged DebugLevel "Failed to get presubmits"]
      | None => []
      end
  end.

Definition postsubmitQueries (gc : option git.ClientFactory)
    (cfg : prowCfgClient) (refs : prowapi.Refs) : list Effect :=
  Queried (QGetPostsubmitsStatic (orgRepoOf refs)) ::
  match gc with
  | None => []
  | Some g =>
      Queried (QGetPostsubmits g (orgRepoOf refs) (prowapi.BaseSHA refs)) ::
      match (GetPostsubmits cfg g (orgRepoOf refs)
               (prowapi.BaseSHA refs)).2 with
      | Some _ =>
          [Logged DebugLevel "Failed to get postsubmits from inrepoconfig"]
      | None => []
      end
  end.

(** The candidate list a handler ends up with. *)
Definition presubmitCandidates (gc : option git.ClientFactory)
    (cfg : prowCfgClient) (refs : prowapi.Refs) : list config.Presubmit :=
  match gc with
  | None => GetPresubmitsStatic cfg (orgRepoOf refs)
  | Some g =>
      match GetPresubmits cfg g (orgRepoOf refs) (prowapi.BaseSHA refs)
              (map prowapi.SHA (prowapi.Pulls refs)) with
      | (dynamic, None) => dynamic
      | (_, Some _) => GetPresubmitsStatic cfg (orgRepoOf refs)
      end
  end.

Definition postsubmitCandidates (gc : option git.ClientFactory)
    (cfg : prowCfgClient) (refs : prowapi.Refs) : list config.Postsubmit :=
  match gc with
  | None => GetPostsubmitsStatic cfg (orgRepoOf refs)
  | Some g =>
      match GetPostsubmits cfg g (orgRepoOf refs) (prowapi.BaseSHA refs) with
      | (dynamic, None) => dynamic
      | (_, Some _) => GetPostsubmitsStatic cfg (orgRepoOf refs)
      end
  end.

(** Events whose refs do not meet the requirements of their kind. *)
Definition refsIncomplete (refs : prowapi.Refs) : Prop :=
  prowapi.Org refs = "" ∨ prowapi.Repo refs = "" ∨
  prowapi.BaseSHA refs = "" ∨ prowapi.BaseRef refs = "".

Definition presubmitRefsRejected (pe : ProwJobEvent) : Prop :=
  match Refs pe with
  | None => True
  | Some refs => refsIncomplete refs ∨ prowapi.Pulls refs = []
  end.

Definition postsubmitRefsRejected (pe : ProwJobEvent) : Prop :=
  match Refs pe with
  | None => True
  | Some refs => refsIncomplete refs
  end.

(** The outcome of looking the event's name up in a given candidate
    list. *)
Definition presubmitOutcome (candidates : list config.Presubmit)
    (refs : prowapi.Refs) (pe : ProwJobEvent) : SpecResult :=
  match eligible PresubmitCouldRun (λ j, config.Name j)
          (prowapi.BaseRef refs) (Name pe) candidates with
  | [] => (None, None,
           Some ("failed to find associated presubmit job " +:+
                 Quote (Name pe)))
  | [job] => (Some (PresubmitSpec job refs), config.Labels job, None)
  | _ :: _ :: _ => (None, None, Some (Name pe +:+ " matches multiple prow jobs"))
  end.

Definition postsubmitOutcome (candidates : list config.Postsubmit)
    (refs : prowapi.Refs) (pe : ProwJobEvent) : SpecResult :=
  match eligible PostsubmitCouldRun (λ j, config.Name j)
          (prowapi.BaseRef refs) (Name pe) candidates with
  | [] => (None, None,
           Some ("failed to find associated postsubmit job " +:+
                 Quote (Name pe)))
  | [job] => (Some (PostsubmitSpec job refs), config.Labels job, None)
  | _ :: _ :: _ => (None, None, Some (Name pe +:+ " matches multiple prow jobs"))
  end.

(** A record as the reporter sees it after a failure, and after a
    successful submission. *)
Definition errored (pj : prowapi.ProwJob) (err : error) : prowapi.ProwJob :=
  withStatus pj {| prowapi.State := prowapi.ErrorState;
                   prowapi.Description := "Failed creating prowjob: " +:+ err |}.

Definition triggered (pj : prowapi.ProwJob) : prowapi.ProwJob :=
  withStatus pj {| prowapi.State := prowapi.TriggeredState;
                   prowapi.Description := "Successfully triggered prowjob." |}.

(** What reporting a record leaves in the trace. *)
Definition reportEffects (r : reportClient) (pj : prowapi.ProwJob)
  : list Effect :=
  CalledShouldReport pj ::
  if ShouldReport r pj then
    CalledReport pj ::
    match Report r pj with
    | Some _ => [Logged WarnLevel "Failed to report status."]
    | None => []
    end
  else [].

(** The labels a resolved job carries when the dispatch starts. *)
Definition labelsOf (labels : option loc) (w : World) : gmap string string :=
  match labels with
  | Some r => default ∅ (LabelMaps w !! r)
  | None => ∅
  end.

(** The environment entries of an event, as container variables. *)
Definition envVars (pe : ProwJobEvent) : list coreapi.EnvVar :=
  (λ kv, coreapi.mkEnvVar kv.1 kv.2) <$> map_to_list (Envs pe).

(** A stretch of the trace in which the backend is not asked to create a
    job. *)
Definition noCreate (t : list Effect) : Prop :=
  ∀ pj, CalledCreate pj ∉ t.

(** The event types [handleMessage] recognises. *)
Definition recognised (eType : string) : Prop :=
  eType = periodicProwJobEvent ∨ eType = presubmitProwJobEvent ∨
  eType = postsubmitProwJobEvent.

End Specification.

(** ** A concrete instantiation

    One choice for the parameters, a small catalog and a few events, on
    which the model runs to a value. *)

Module Fixture.

Definition dquote : string := String (Ascii.ascii_of_nat 34) EmptyString.

Definition mainRefs : prowapi.Refs :=
  {| prowapi.Org := "o"; prowapi.Repo := "r"; prowapi.BaseRef := "main";
     prowapi.BaseSHA := "abc";
     prowapi.Pulls := [ {| prowapi.Number := 1; prowapi.SHA := "def" |} ] |}.

Definition hansEvent : ProwJobEvent :=
  {| Name := "hans"; Refs := Some mainRefs;
     Envs := {[ "FOO" := "bar" ]};
     Labels := {[ "owner" := "event" ]};
     Annotations := ∅ |}.

Definition nightlyEvent : ProwJobEvent :=
  {| Name := "nightly"; Refs := None;
     Envs := {[ "FOO" := "bar" ]};
     Labels := {[ "owner" := "event" ]};
     Annotations := ∅ |}.

Definition ghostEvent : ProwJobEvent :=
  {| Name := "ghost"; Refs := None; Envs := ∅; Labels := ∅;
     Annotations := ∅ |}.

Definition noPullsEvent : ProwJobEvent :=
  {| Name := "hans";
     Refs := Some {| prowapi.Org := "o"; prowapi.Repo := "r";
                     prowapi.BaseRef := "main"; prowapi.BaseSHA := "abc";
                     prowapi.Pulls := [] |};
     Envs := ∅; Labels := ∅; Annotations := ∅ |}.

(** The decoder recognises three one-byte payloads. *)
#[export] Instance runtime : GoRuntime :=
  {| Quote := λ s, dquote +:+ s +:+ dquote;
     Unmarshal := λ data,
       match data with
       | [Byte.x01] => (hansEvent, None)
       | [Byte.x02] => (nightlyEvent, None)
       | [Byte.x03] => (ghostEvent, None)
       | _ => (ghostEvent, Some "unexpected end of JSON input")
       end;
     rangeMap := λ _ m, map_to_list m |}.

#[export] Instance pjutil : Pjutil :=
  {| PeriodicSpec := λ p,
       {| prowapi.Job := config.Name p; prowapi.Cluster := config.Cluster p;
          prowapi.SpecRefs := None; prowapi.PodSpec := config.Spec p |};
     PresubmitSpec := λ p refs,
       {| prowapi.Job := config.Name p; prowapi.Cluster := config.Cluster p;
          prowapi.SpecRefs := Some refs; prowapi.PodSpec := config.Spec p |};
     PostsubmitSpec := λ p refs,
       {| prowapi.Job := config.Name p; prowapi.Cluster := config.Cluster p;
          prowapi.SpecRefs := Some refs; prowapi.PodSpec := config.Spec p |};
     NewProwJob := λ spec labels annotations,
       {| prowapi.Name := "generated";
          prowapi.Labels := default ∅ labels;
          prowapi.Annotations := annotations;
          prowapi.Spec := spec;
          prowapi.Status :=
            {| prowapi.State := prowapi.TriggeredState;
               prowapi.Description := EmptyString |} |} |}.

Definition shouldRun (b : config.Brancher) (branch : string) : bool :=
  negb (existsb (String.eqb branch) (config.SkipBranches b)) &&
  match config.Branches b with
  | [] => true
  | bs => existsb (String.eqb branch) bs
  end.

#[export] Instance configMethods : ConfigMethods :=
  {| PresubmitCouldRun := λ p, shouldRun (config.PresubmitBrancher p);
     PostsubmitCouldRun := λ p, shouldRun (config.PostsubmitBrancher p) |}.

Definition pod : coreapi.PodSpec :=
  {| coreapi.Containers :=
       [ {| coreapi.ContainerName := "test"; coreapi.Image := "img";
            coreapi.Env := [ coreapi.mkEnvVar "FOO" "old" ] |};
         {| coreapi.ContainerName := "sidecar"; coreapi.Image := "img";
            coreapi.Env := [] |} ] |}.

Definition base (name cluster : string) (labels : option loc)
  : config.JobBase :=
  {| config.Name := name; config.Labels := labels;
     config.Cluster := cluster; config.Spec := Some pod |}.

Definition onMain : config.Brancher :=
  {| config.SkipBranches := []; config.Branches := ["main"] |}.

Definition onRelease : config.Brancher :=
  {| config.SkipBranches := []; config.Branches := ["release"] |}.

Definition nightly : config.Periodic :=
  {| config.PeriodicBase := base "nightly" "build" (Some 1%positive);
     config.Cron := "@daily" |}.

Definition hans : config.Presubmit :=
  {| config.PresubmitBase := base "hans" "build" (Some 2%positive);
     config.PresubmitBrancher := onMain |}.

Definition hansOnRelease : config.Presubmit :=
  {| config.PresubmitBase := base "hans" "other" None;
     config.PresubmitBrancher := onRelease |}.

Definition kurt : config.Presubmit :=
  {| config.PresubmitBase := base "kurt" "build" None;
     config.PresubmitBrancher := onMain |}.

Definition hansPost : config.Postsubmit :=
  {| config.PostsubmitBase := base "hans" "build" None;
     config.PostsubmitBrancher := onMain |}.

(** A configuration whose in-repo lookup fails. *)
Definition cfg : prowCfgClient :=
  {| AllPeriodics := [nightly];
     GetPresubmits := λ _ _ _ _, ([], Some "checkout client is nil");
     GetPresubmitsStatic := λ _, [hansOnRelease; kurt; hans];
     GetPostsubmits := λ _ _ _, ([], Some "checkout client is nil");
     GetPostsubmitsStatic := λ _, [hansPost] |}.

(** A configuration whose in-repo lookup succeeds. *)
Definition cfgInRepo : prowCfgClient :=
  {| AllPeriodics := [nightly];
     GetPresubmits := λ _ _ _ _, ([kurt], None);
     GetPresubmitsStatic := λ _, [hansOnRelease; kurt; hans];
     GetPostsubmits := λ _ _ _, ([], None);
     GetPostsubmitsStatic := λ _, [hansPost] |}.

Definition gitClient : git.ClientFactory := git.Factory 0.

Definition quietReporter : reportClient :=
  {| Report := λ _, None; ShouldReport := λ _, false |}.

Definition failingReporter : reportClient :=
  {| Report := λ _, Some "report failed"; ShouldReport := λ _, true |}.

Definition backend : ProwJobClient := {| Create := λ _, None |}.

Definition subscriber : Subscriber :=
  {| ConfigAgent := cfg; Client := backend; GitClient := None;
     Reporter := failingReporter |}.

Definition world : World :=
  {| MessageCounter := ∅; ErrorCounter := ∅;
     LabelMaps := {[ 1%positive := {[ "owner" := "sig-testing" ]};
                     2%positive := {[ "owner" := "sig-testing";
                                      "kind" := "presubmit" ]} ]};
     Trace := [] |}.

Definition msg (attrs : gmap string string) (data : list Byte.byte)
  : message :=
  {| getAttributes := attrs; getPayload := data; getID := "1" |}.

End Fixture.

(** ** Publishing an event *)

(** [json.Marshal(pe)] *)
Class JsonMarshal : Type :=
  { Marshal : ProwJobEvent → list Byte.byte * option error }.

(** [ProwJobEvent.ToMessage] generates a PubSub message from an event; a
    [nil] message is [None], and the [ID] of the new message is empty. *)
Definition ToMessage `{JsonMarshal} (pe : ProwJobEvent)
  : option message * option error :=
  let (data, err) := Marshal pe in
  match err with
  | Some e => (None, Some e)
  | None =>
      (Some {| getAttributes := {[ prowEventType := periodicProwJobEvent ]};
               getPayload := data;
               getID := EmptyString |},
       None)
  end.

(** ** Counting calls in a trace *)

Definition isCreate (e : Effect) : bool :=
  match e with CalledCreate _ => true | _ => false end.

Definition isShouldReport (e : Effect) : bool :=
  match e with CalledShouldReport _ => true | _ => false end.

Definition count (p : Effect → bool) (t : list Effect) : nat :=
  length (List.filter p t).

(** A stretch of the trace made of configuration queries and log lines. *)
Definition resolutionOnly (t : list Effect) : Prop :=
  Forall (λ e, match e with
               | Logged _ _ | Queried _ => True
               | _ => False
               end) t.

(** A handler's result holds a spec and no error, or an error and nothing
    else. *)
Definition specOrError (r : SpecResult) : Prop :=
  (∃ spec labels, r = (Some spec, labels, None)) ∨
  (∃ e, r = (None, None, Some e)).

(** Whether a message gets as far as resolution: its event type is
    recognised and its payload decodes. *)
Definition reachesResolution `{GoRuntime} `{Pjutil} `{ConfigMethods}
    (s : Subscriber) (msg : message) : bool :=
  match getAttributes msg !! prowEventType with
  | Some eType =>
      match selectHandler s eType, (Unmarshal (getPayload msg)).2 with
      | Some _, None => true
      | _, _ => false
      end
  | None => false
  end.

(** An encoder for the events the decoder of [Fixture] recognises. *)
Module FixtureMarshal.

#[export] Instance marshal : JsonMarshal :=
  {| Marshal := λ pe,
       if String.eqb (Name pe) "hans" then ([Byte.x01], None)
       else if String.eqb (Name pe) "nightly" then ([Byte.x02], None)
       else ([], Some "json: unsupported value") |}.

End FixtureMarshal.

(** ** Lemmas on running a computation *)

Lemma appendTrace_nil w : appendTrace w [] = w.
Proof. destruct w; unfold appendTrace; simpl. by rewrite app_nil_r. Qed.

Lemma appendTrace_app w t1 t2 :
  appendTrace (appendTrace w t1) t2 = appendTrace w (t1 ++ t2).
Proof. unfold appendTrace; simpl. by rewrite <- app_assoc. Qed.

Lemma emit_run e w : emit e w = (tt, appendTrace w [e]).
Proof. reflexivity. Qed.

(** ** The scan over the candidates *)

Section Scan.

Context {J : Type} (CouldRun : J → string → bool) (jobName : J → string)
        (branch name : string).

Local Abbreviation scan := (scanJobs CouldRun jobName branch name).
Local Abbreviation elig := (eligible CouldRun jobName branch name).

Lemma eligible_cons job rest :
  elig (job :: rest) =
  if CouldRun job branch && String.eqb (jobName job) name
  then job :: elig rest else elig rest.
Proof.
  unfold eligible; simpl.
  destruct (CouldRun job branch); simpl; [|done].
  by destruct (String.eqb (jobName job) name).
Qed.

(** The loop, whatever it has found so far. *)
Lemma scanJobs_eligible jobs found :
  scan jobs found =
  match found, elig jobs with
  | _, [] => inr found
  | None, [job] => inr (Some job)
  | _, _ => inl (name +:+ " matches multiple prow jobs")
  end.
Proof.
  revert found. induction jobs as [|job rest IH]; intros found.
  - by destruct found.
  - rewrite eligible_cons. simpl.
    destruct (CouldRun job branch); simpl; [|apply IH].
    destruct (String.eqb (jobName job) name); [|apply IH].
    destruct found as [f|].
    + by destruct (elig rest).
    + rewrite IH. by destruct (elig rest) as [|? [|? ?]].
Qed.

Lemma eligible_spec job jobs :
  job ∈ elig jobs ↔
  job ∈ jobs ∧ CouldRun job branch = true ∧ jobName job = name.
Proof.
  unfold eligible. rewrite !list_elem_of_In, !filter_In, String.eqb_eq.
  tauto.
Qed.

End Scan.

(** ** Lemmas on the job handlers *)

Section Handlers.

Context `{GoRuntime} `{Pjutil} `{ConfigMethods}.

Lemma periodicScan_find jobs name :
  periodicScan jobs name =
  List.find (λ j : config.Periodic, String.eqb (config.Name j) name) jobs.
Proof.
  induction jobs as [|job rest IH]; simpl; [done|].
  by destruct (String.eqb (config.Name job) name).
Qed.

Lemma periodicScan_absent jobs name :
  (∀ job : config.Periodic, job ∈ jobs → config.Name job ≠ name) →
  periodicScan jobs name = None.
Proof.
  induction jobs as [|job rest IH]; intros Hall; simpl; [done|].
  destruct (String.eqb (config.Name job) name) eqn:E.
  - apply String.eqb_eq in E. destruct (Hall job); [left | done].
  - apply IH. intros j Hj. apply Hall. by right.
Qed.

Lemma periodic_run cfg pe w :
  periodic_getProwJobSpec cfg pe w =
  (match List.find (λ j : config.Periodic,
                      String.eqb (config.Name j) (Name pe))
                   (AllPeriodics cfg) with
   | Some job => (Some (PeriodicSpec job), config.Labels job, None)
   | None => (None, None,
              Some ("failed to find associated periodic job " +:+
                    Quote (Name pe)))
   end,
   appendTrace w [Queried QAllPeriodics]).
Proof.
  unfold periodic_getProwJobSpec. run. rewrite periodicScan_find.
  by destruct (List.find _ _).
Qed.

Lemma length_eqb_0_false s : s ≠ "" → Nat.eqb (String.length s) 0 = false.
Proof. by destruct s. Qed.

Lemma length_eqb_0_true s : s = "" → Nat.eqb (String.length s) 0 = true.
Proof. by intros ->. Qed.

Lemma pulls_eqb_0_false {A} (l : list A) :
  l ≠ [] → Nat.eqb (length l) 0 = false.
Proof. by destruct l. Qed.

(** A presubmit event with complete refs and at least one pull: the
    handler consults the configuration and returns the outcome of the
    lookup among the candidates it selected. *)
Lemma presubmit_run gc cfg pe refs w :
  Refs pe = Some refs → refsComplete refs → prowapi.Pulls refs ≠ [] →
  presubmit_getProwJobSpec gc cfg pe w =
  (presubmitOutcome (presubmitCandidates gc cfg refs) refs pe,
   appendTrace w (presubmitQueries gc cfg refs)).
Proof.
  intros Hrefs (Horg & Hrepo & Hsha & Href) Hpulls.
  unfold presubmit_getProwJobSpec, presubmitOutcome, presubmitQueries,
    presubmitCandidates.
  rewrite Hrefs.
  rewrite !length_eqb_0_false, pulls_eqb_0_false by done.
  fold (orgRepoOf refs).
  destruct gc as [g|].
  - run.
    destruct (GetPresubmits cfg g (orgRepoOf refs) (prowapi.BaseSHA refs)
                (map prowapi.SHA (prowapi.Pulls refs))) as [dyn [e|]]; run;
      rewrite scanJobs_eligible, <- ?app_assoc;
      by match goal with
         | |- context [eligible ?a ?b ?c ?d ?e] =>
             destruct (eligible a b c d e) as [|? [|? ?]]
         end.
  - run. rewrite scanJobs_eligible.
    by destruct (eligible _ _ _ _ _) as [|? [|? ?]].
Qed.

Lemma postsubmit_run gc cfg pe refs w :
  Refs pe = Some refs → refsComplete refs →
  postsubmit_getProwJobSpec gc cfg pe w =
  (postsubmitOutcome (postsubmitCandidates gc cfg refs) refs pe,
   appendTrace w (postsubmitQueries gc cfg refs)).
Proof.
  intros Hrefs (Horg & Hrepo & Hsha & Href).
  unfold postsubmit_getProwJobSpec, postsubmitOutcome, postsubmitQueries,
    postsubmitCandidates.
  rewrite Hrefs.
  rewrite !length_eqb_0_false by done.
  fold (orgRepoOf refs).
  destruct gc as [g|].
  - run.
    destruct (GetPostsubmits cfg g (orgRepoOf refs) (prowapi.BaseSHA refs))
      as [dyn [e|]]; run;
      rewrite scanJobs_eligible, <- ?app_assoc;
      by match goal with
         | |- context [eligible ?a ?b ?c ?d ?e] =>
             destruct (eligible a b c d e) as [|? [|? ?]]
         end.
  - run. rewrite scanJobs_eligible.
    by destruct (eligible _ _ _ _ _) as [|? [|? ?]].
Qed.

End Handlers.

(** ** Resolution of an event to a job *)

Section Resolution.

Context `{GoRuntime} `{Pjutil} `{ConfigMethods}.

Lemma presubmit_rejected gc cfg pe w :
  presubmitRefsRejected pe →
  ∃ e, presubmit_getProwJobSpec gc cfg pe w = ((None, None, Some e), w).
Proof.
  unfold presubmitRefsRejected, presubmit_getProwJobSpec, fail.
  destruct (Refs pe) as [refs|]; [|by eexists].
  intros Hbad.
  destruct (Nat.eqb (String.length (prowapi.Org refs)) 0) eqn:E1;
    [by eexists|].
  destruct (Nat.eqb (String.length (prowapi.Repo refs)) 0) eqn:E2;
    [by eexists|].
  destruct (Nat.eqb (length (prowapi.Pulls refs)) 0) eqn:E3; [by eexists|].
  destruct (Nat.eqb (String.length (prowapi.BaseSHA refs)) 0) eqn:E4;
    [by eexists|].
  destruct (Nat.eqb (String.length (prowapi.BaseRef refs)) 0) eqn:E5;
    [by eexists|].
  exfalso.
  destruct Hbad as [[Hb|[Hb|[Hb|Hb]]]|Hb]; rewrite Hb in *; discriminate.
Qed.

Lemma postsubmit_rejected gc cfg pe w :
  postsubmitRefsRejected pe →
  ∃ e, postsubmit_getProwJobSpec gc cfg pe w = ((None, None, Some e), w).
Proof.
  unfold postsubmitRefsRejected, postsubmit_getProwJobSpec, fail.
  destruct (Refs pe) as [refs|]; [|by eexists].
  intros Hbad.
  destruct (Nat.eqb (String.length (prowapi.Org refs)) 0) eqn:E1;
    [by eexists|].
  destruct (Nat.eqb (String.length (prowapi.Repo refs)) 0) eqn:E2;
    [by eexists|].
  destruct (Nat.eqb (String.length (prowapi.BaseSHA refs)) 0) eqn:E4;
    [by eexists|].
  destruct (Nat.eqb (String.length (prowapi.BaseRef refs)) 0) eqn:E5;
    [by eexists|].
  exfalso.
  destruct Hbad as [Hb|[Hb|[Hb|Hb]]]; rewrite Hb in *; discriminate.
Qed.

(** C1. For a presubmit or postsubmit event whose refs pass validation,
    the handler keeps the candidates that could run on the event's base
    branch and, among those, the ones named like the event.  None left:
    an error that the job was not found, quoting the requested name.
    Two or more: an error that the name matches multiple jobs.  Exactly
    one: the spec built from that job, with the job's labels and no
    error. *)
Theorem resolution_by_branch_then_name gc cfg pe refs w :
  Refs pe = Some refs → refsComplete refs →
  (prowapi.Pulls refs ≠ [] →
   let matches :=
     List.filter (λ j : config.Presubmit, String.eqb (config.Name j) (Name pe))
       (List.filter (λ j, PresubmitCouldRun j (prowapi.BaseRef refs))
          (presubmitCandidates gc cfg refs)) in
   let result := (presubmit_getProwJobSpec gc cfg pe w).1 in
   (matches = [] →
    result = (None, None,
              Some ("failed to find associated presubmit job " +:+
                    Quote (Name pe)))) ∧
   ((2 ≤ length matches)%nat →
    result = (None, None, Some (Name pe +:+ " matches multiple prow jobs"))) ∧
   (∀ job, matches = [job] →
    result = (Some (PresubmitSpec job refs), config.Labels job, None))) ∧
  (let matches :=
     List.filter (λ j : config.Postsubmit, String.eqb (config.Name j) (Name pe))
       (List.filter (λ j, PostsubmitCouldRun j (prowapi.BaseRef refs))
          (postsubmitCandidates gc cfg refs)) in
   let result := (postsubmit_getProwJobSpec gc cfg pe w).1 in
   (matches = [] →
    result = (None, None,
              Some ("failed to find associated postsubmit job " +:+
                    Quote (Name pe)))) ∧
   ((2 ≤ length matches)%nat →
    result = (None, None, Some (Name pe +:+ " matches multiple prow jobs"))) ∧
   (∀ job, matches = [job] →
    result = (Some (PostsubmitSpec job refs), config.Labels job, None))).
Proof.
  intros Hrefs Hcomplete. split.
  - intros Hpulls matches result. subst result.
    rewrite (presubmit_run gc cfg pe refs w) by done.
    unfold presubmitOutcome, eligible. fold matches. simpl.
    destruct matches as [|j1 [|j2 rest]]; simpl;
      repeat split; intros; simplify_eq; try done; lia.
  - intros matches result. subst result.
    rewrite (postsubmit_run gc cfg pe refs w) by done.
    unfold postsubmitOutcome, eligible. fold matches. simpl.
    destruct matches as [|j1 [|j2 rest]]; simpl;
      repeat split; intros; simplify_eq; try done; lia.
Qed.

(** C5. With a git client configured, a failed in-repo fetch does not
    fail the resolution: the handler resolves against the static catalog
    of [org/repo].  A successful fetch makes the fetched list the whole
    candidate list, whatever the static catalog holds. *)
Theorem inrepoconfig_failure_falls_back_to_static g cfg pe refs w :
  Refs pe = Some refs → refsComplete refs →
  (prowapi.Pulls refs ≠ [] →
   ∀ dynamic err,
     GetPresubmits cfg g (orgRepoOf refs) (prowapi.BaseSHA refs)
       (map prowapi.SHA (prowapi.Pulls refs)) = (dynamic, err) →
     (presubmit_getProwJobSpec (Some g) cfg pe w).1 =
     match err with
     | Some _ =>
         presubmitOutcome (GetPresubmitsStatic cfg (orgRepoOf refs)) refs pe
     | None => presubmitOutcome dynamic refs pe
     end) ∧
  (∀ dynamic err,
     GetPostsubmits cfg g (orgRepoOf refs) (prowapi.BaseSHA refs) =
       (dynamic, err) →
     (postsubmit_getProwJobSpec (Some g) cfg pe w).1 =
     match err with
     | Some _ =>
         postsubmitOutcome (GetPostsubmitsStatic cfg (orgRepoOf refs)) refs pe
     | None => postsubmitOutcome dynamic refs pe
     end).
Proof.
  intros Hrefs Hcomplete. split.
  - intros Hpulls dynamic err Hfetch.
    rewrite (presubmit_run (Some g) cfg pe refs w) by done.
    unfold presubmitCandidates. rewrite Hfetch. by destruct err.
  - intros dynamic err Hfetch.
    rewrite (postsubmit_run (Some g) cfg pe refs w) by done.
    unfold postsubmitCandidates. rewrite Hfetch. by destruct err.
Qed.

(** C6. A presubmit event is refused, with an error and no spec, when it
    has no refs, or an empty org, repo, baseSHA or baseRef, or no pull.
    A postsubmit event is refused under the same conditions except the
    last: with the four fields present it goes on to the catalog even
    without a pull. *)
Theorem incomplete_refs_are_refused gc cfg pe w :
  (presubmitRefsRejected pe →
   ∃ e, presubmit_getProwJobSpec gc cfg pe w = ((None, None, Some e), w)) ∧
  (postsubmitRefsRejected pe →
   ∃ e, postsubmit_getProwJobSpec gc cfg pe w = ((None, None, Some e), w)) ∧
  (∀ refs, Refs pe = Some refs → refsComplete refs →
           prowapi.Pulls refs = [] →
     postsubmit_getProwJobSpec gc cfg pe w =
     (postsubmitOutcome (postsubmitCandidates gc cfg refs) refs pe,
      appendTrace w (postsubmitQueries gc cfg refs))).
Proof.
  split; [apply presubmit_rejected|].
  split; [apply postsubmit_rejected|].
  intros refs Hrefs Hcomplete _. by apply postsubmit_run.
Qed.

(** C9. The periodic handler asks the configuration for all periodics
    and nothing else, and returns the first job whose name equals the
    event's, with no test on branches.  When no periodic carries the
    name it returns, on every input, the error that the periodic job
    was not found, quoting the requested name. *)
Theorem periodic_resolution_by_name cfg pe w :
  (periodic_getProwJobSpec cfg pe w).2 =
    appendTrace w [Queried QAllPeriodics] ∧
  (periodic_getProwJobSpec cfg pe w).1 =
    match List.find (λ j : config.Periodic,
                       String.eqb (config.Name j) (Name pe))
                    (AllPeriodics cfg) with
    | Some job => (Some (PeriodicSpec job), config.Labels job, None)
    | None => (None, None,
               Some ("failed to find associated periodic job " +:+
                     Quote (Name pe)))
    end ∧
  ((∀ job : config.Periodic,
      job ∈ AllPeriodics cfg → config.Name job ≠ Name pe) →
   (periodic_getProwJobSpec cfg pe w).1 =
     (None, None,
      Some ("failed to find associated periodic job " +:+ Quote (Name pe)))).
Proof.
  rewrite periodic_run. repeat split.
  intros Habsent. simpl.
  by rewrite <- periodicScan_find, periodicScan_absent.
Qed.

(** C10. The handler chosen for a periodic event is the same whatever
    git client the subscriber holds, and its whole result (spec, labels,
    error, and the calls it makes) is the same for two events with one
    name and two configurations with one periodic catalog, however the
    events differ in refs, envs, labels and annotations and the
    configurations in their presubmits and postsubmits. *)
Theorem periodic_resolution_ignores_the_rest s1 s2 cfg1 cfg2 pe1 pe2 w :
  AllPeriodics cfg1 = AllPeriodics cfg2 → Name pe1 = Name pe2 →
  selectHandler s1 periodicProwJobEvent = Some periodicJobHandler ∧
  selectHandler s2 periodicProwJobEvent = Some periodicJobHandler ∧
  getProwJobSpec periodicJobHandler cfg1 pe1 w =
  getProwJobSpec periodicJobHandler cfg2 pe2 w.
Proof.
  intros Hcat Hname. repeat split.
  simpl. unfold periodic_getProwJobSpec. by rewrite Hcat, Hname.
Qed.

End Resolution.

(** ** Dispatch *)

Section Dispatch.

Context `{GoRuntime} `{Pjutil} `{ConfigMethods}.

Lemma reportProwJob_run s pj state err w :
  reportProwJob s pj state err w =
  (tt, appendTrace w
         (reportEffects (Reporter s)
            (withStatus pj
               {| prowapi.State := state;
                  prowapi.Description :=
                    match err with
                    | Some e => "Failed creating prowjob: " +:+ e
                    | None => "Successfully triggered prowjob."
                    end |}))).
Proof.
  unfold reportProwJob, reportEffects. run.
  destruct (ShouldReport _ _); run.
  - destruct (Report _ _); run; by rewrite <- ?app_assoc.
  - done.
Qed.

Lemma clusterIsAllowed_spec allowedClusters cluster :
  clusterIsAllowed allowedClusters cluster = true ↔
  "*" ∈ allowedClusters ∨ cluster ∈ allowedClusters.
Proof.
  induction allowedClusters as [|a rest IH]; simpl.
  - split; [done|]. intros [Hin|Hin]; inversion Hin.
  - destruct (String.eqb a "*") eqn:Estar; simpl.
    + apply String.eqb_eq in Estar as ->. split; [|done].
      intros _. left. left.
    + destruct (String.eqb a cluster) eqn:Ec.
      * apply String.eqb_eq in Ec as ->. split; [|done].
        intros _. right. left.
      * apply String.eqb_neq in Estar, Ec. rewrite IH.
        rewrite !elem_of_cons. intuition congruence.
Qed.

(** Storing the entries of a list into a map, one after the other. *)
Lemma foldl_insert_union (l : list (string * string))
    (m0 : gmap string string) :
  NoDup l.*1 →
  foldl (λ m kv, <[kv.1 := kv.2]> m) m0 l = list_to_map l ∪ m0.
Proof.
  revert m0. induction l as [|[k v] l IH]; intros m0 Hnd; simpl.
  - by rewrite (left_id_L ∅ (∪)).
  - apply NoDup_cons in Hnd as [Hk Hnd]. rewrite IH by done.
    rewrite <- insert_union_l.
    rewrite insert_union_r; [done|].
    by apply not_elem_of_list_to_map_1.
Qed.

Lemma forEach_mapStore r (l : list (string * string)) w :
  let w' := (forEach l (λ kv, mapStore r kv.1 kv.2) w).2 in
  default ∅ (LabelMaps w' !! r) =
    foldl (λ m kv, <[kv.1 := kv.2]> m) (default ∅ (LabelMaps w !! r)) l ∧
  Trace w' = Trace w ∧ MessageCounter w' = MessageCounter w ∧
  ErrorCounter w' = ErrorCounter w.
Proof.
  revert w. induction l as [|[k v] l IH]; intros w; simpl; [done|].
  run. destruct (IH (mapStore r k v w).2) as (IH1 & IH2 & IH3 & IH4).
  unfold mapStore in *. simpl in *.
  rewrite IH1, IH2, IH3, IH4. by rewrite lookup_insert_eq.
Qed.

(** Merging labels leaves the trace and the counters alone. *)
Lemma mergeLabels_frame labels pe w :
  Trace (mergeLabels labels pe w).2 = Trace w ∧
  MessageCounter (mergeLabels labels pe w).2 = MessageCounter w ∧
  ErrorCounter (mergeLabels labels pe w).2 = ErrorCounter w.
Proof.
  unfold mergeLabels. destruct labels as [r|]; run.
  - destruct (forEach_mapStore r (rangeMap 0 (Labels pe)) w) as (_ & Hrest).
    by destruct (forEach _ _ w) as [[] w'].
  - unfold makeMap. simpl.
    match goal with
    | |- context [forEach ?l ?f ?w0] =>
        destruct (forEach_mapStore (fresh (dom (LabelMaps w))) l w0)
          as (_ & Hrest);
        destruct (forEach l f w0) as [[] w']
    end.
    done.
Qed.

(** Under any iteration order the merged map is the event's labels laid
    over the job's, and it is written back into the store under the
    job's own reference. *)
Lemma mergeLabels_run labels pe w :
  rangeMap_lawful →
  let out := mergeLabels labels pe w in
  out.1 = Labels pe ∪ labelsOf labels w ∧
  Trace out.2 = Trace w ∧ MessageCounter out.2 = MessageCounter w ∧
  ErrorCounter out.2 = ErrorCounter w ∧
  (∀ r, labels = Some r → LabelMaps out.2 !! r = Some out.1 ∨
                           (Labels pe = ∅ ∧ LabelMaps out.2 = LabelMaps w)).
Proof.
  intros Hlaw. unfold mergeLabels, labelsOf.
  assert (Hfold : ∀ m0 : gmap string string,
             foldl (λ m kv, <[kv.1 := kv.2]> m) m0 (rangeMap 0 (Labels pe)) =
             Labels pe ∪ m0).
  { intros m0. rewrite foldl_insert_union.
    - f_equal.
      transitivity (list_to_map (map_to_list (Labels pe))
                    : gmap string string);
        [|apply list_to_map_to_list].
      apply list_to_map_proper; [|apply Hlaw].
      rewrite (Hlaw 0 (Labels pe)). apply NoDup_fst_map_to_list.
    - rewrite (Hlaw 0 (Labels pe)). apply NoDup_fst_map_to_list. }
  destruct labels as [r|].
  - run.
    destruct (forEach_mapStore r (rangeMap 0 (Labels pe)) w)
      as (Hm & Ht & Hmc & Hec).
    destruct (forEach (rangeMap 0 (Labels pe)) _ w) as [[] w'] eqn:E.
    simpl in *. unfold readMap. simpl. rewrite Hm, Hfold.
    repeat split; try done.
    intros r' [= <-].
    destruct (rangeMap 0 (Labels pe)) as [|[k v] l] eqn:El.
    + right. split.
      * apply map_to_list_empty_iff. apply Permutation_nil.
        by rewrite <- (Hlaw 0 (Labels pe)), El.
      * simpl in E. by injection E as <-.
    + left. rewrite <- Hfold, <- Hm.
      clear -E. simpl in E. revert E. run.
      set (w1 := {| MessageCounter := _ |}).
      assert (Hin : is_Some (LabelMaps w1 !! r))
        by (subst w1; simpl; rewrite lookup_insert_eq; eauto).
      clearbody w1. revert w1 Hin.
      induction l as [|[k' v'] l IH]; intros w1 Hin; simpl.
      * intros [= <-]. by destruct Hin as [m ->].
      * run. apply IH. unfold mapStore. simpl.
        rewrite lookup_insert_eq. eauto.
  - run. unfold makeMap. simpl.
    set (r := fresh (dom (LabelMaps w))).
    destruct (forEach_mapStore r (rangeMap 0 (Labels pe))
                {| MessageCounter := MessageCounter w;
                   ErrorCounter := ErrorCounter w;
                   LabelMaps := <[r := ∅]> (LabelMaps w);
                   Trace := Trace w |})
      as (Hm & Ht & Hmc & Hec).
    destruct (forEach (rangeMap 0 (Labels pe)) _ _) as [[] w'] eqn:E.
    simpl in *. unfold readMap. simpl. rewrite Hm, lookup_insert_eq. simpl.
    rewrite Hfold. repeat split; done.
Qed.

(** [handleProwJob], path by path. *)
Lemma handleProwJob_run s jh msg subscription allowedClusters w :
  handleProwJob s jh msg subscription allowedClusters w =
  match Unmarshal (getPayload msg) with
  | (_, Some e) => (Some e, w)
  | (pe, None) =>
      match getProwJobSpec jh (ConfigAgent s) pe w with
      | ((_, _, Some e), w1) =>
          (Some e,
           appendTrace w1
             (Logged DebugLevel "Failed getting prowjob spec" ::
              reportEffects (Reporter s)
                (errored (NewProwJob prowapi.emptySpec None (Annotations pe))
                         e)))
      | ((None, _, None), w1) => (Some "failed getting prowjob spec", w1)
      | ((Some spec, labels, None), w1) =>
          if clusterIsAllowed allowedClusters (prowapi.Cluster spec) then
            let (merged, w2) := mergeLabels labels pe w1 in
            let pj := withEnvs pe (NewProwJob spec (Some merged)
                                              (Annotations pe)) in
            match Create (Client s) pj with
            | Some e =>
                (Some e,
                 appendTrace w2
                   (CalledCreate pj ::
                    Logged ErrorLevel
                      ("failed to create job " +:+ Quote (Name pe) +:+
                       " as " +:+ Quote (prowapi.Name pj)) ::
                    reportEffects (Reporter s) (errored pj e)))
            | None =>
                (None,
                 appendTrace w2
                   (CalledCreate pj :: Logged InfoLevel "Job created." ::
                    reportEffects (Reporter s) (triggered pj)))
            end
          else
            (Some (clusterNotAllowed (prowapi.Cluster spec)),
             appendTrace w1
               (Logged WarnLevel "cluster not allowed" ::
                reportEffects (Reporter s)
                  (errored (NewProwJob spec None (Annotations pe))
                           (clusterNotAllowed (prowapi.Cluster spec)))))
      end
  end.
Proof.
  unfold handleProwJob.
  destruct (Unmarshal (getPayload msg)) as [pe [e|]]; [done|].
  unfold mbind at 1, M_bind at 1.
  destruct (getProwJobSpec jh (ConfigAgent s) pe w)
    as [[[[spec|] labels] [e|]] w1];
    unfold reportProwJobFailure, reportProwJobTriggered, errored, triggered.
  - run. rewrite reportProwJob_run. unfold appendTrace; simpl; by rewrite <- ?app_assoc.
  - destruct (clusterIsAllowed _ _); simpl negb; cbv iota.
    + run. destruct (mergeLabels labels pe w1) as [merged w2].
      destruct (Create (Client s) _) as [e|] eqn:Ecreate;
        rewrite reportProwJob_run; unfold appendTrace; simpl;
        by rewrite <- ?app_assoc.
    + run. rewrite reportProwJob_run. unfold appendTrace; simpl; by rewrite <- ?app_assoc.
  - run. rewrite reportProwJob_run. unfold appendTrace; simpl; by rewrite <- ?app_assoc.
  - done.
Qed.

(** [handleMessage], path by path. *)
Lemma handleMessage_run s msg subscription allowedClusters w :
  handleMessage s msg subscription allowedClusters w =
  let w0 := appendTrace (MessageCounter_With_Inc subscription w).2
                        [Logged InfoLevel "Received message"] in
  match getAttributes msg !! prowEventType with
  | None =>
      (Some ("unable to find " +:+ Quote prowEventType +:+
             " from the attributes"),
       (ErrorCounter_With subscription
          (appendTrace w0 [Logged ErrorLevel "failed to read message"])).2)
  | Some eType =>
      match selectHandler s eType with
      | None =>
          (Some ("unsupported event type: " +:+ eType),
           (ErrorCounter_With subscription
              (appendTrace w0 [Logged DebugLevel "Unsupported event type"])).2)
      | Some jh =>
          match handleProwJob s jh msg subscription allowedClusters w0 with
          | (Some e, w1) =>
              (Some e,
               (ErrorCounter_With subscription
                  (appendTrace w1
                     [Logged DebugLevel "failed to create Prow Job"])).2)
          | (None, w1) => (None, w1)
          end
      end
  end.
Proof.
  unfold handleMessage, extractFromAttribute, MessageCounter_With_Inc,
    ErrorCounter_With.
  destruct (getAttributes msg !! prowEventType) as [eType|]; [|done].
  destruct (selectHandler s eType) as [jh|]; [|done].
  run.
  match goal with
  | |- context [handleProwJob s jh msg subscription allowedClusters ?w0] =>
      destruct (handleProwJob s jh msg subscription allowedClusters w0)
        as [[e|] w1]
  end; done.
Qed.

End Dispatch.

(** ** Admission, merging and reporting *)

Section Admission.

Context `{GoRuntime} `{Pjutil} `{ConfigMethods}.

Lemma noCreate_nil : noCreate [].
Proof. intros pj Hin. inversion Hin. Qed.

Lemma noCreate_cons e t :
  (∀ pj, e ≠ CalledCreate pj) → noCreate t → noCreate (e :: t).
Proof.
  intros He Ht pj Hin. apply elem_of_cons in Hin as [Heq|Hin].
  - by apply (He pj).
  - by apply (Ht pj).
Qed.

Lemma noCreate_app t1 t2 : noCreate t1 → noCreate t2 → noCreate (t1 ++ t2).
Proof.
  intros H1' H2' pj Hin. apply elem_of_app in Hin as [Hin|Hin].
  - by apply (H1' pj).
  - by apply (H2' pj).
Qed.

Lemma noCreate_reportEffects r pj : noCreate (reportEffects r pj).
Proof.
  unfold reportEffects.
  apply noCreate_cons; [done|].
  destruct (ShouldReport r pj); [|apply noCreate_nil].
  apply noCreate_cons; [done|].
  destruct (Report r pj); [|apply noCreate_nil].
  apply noCreate_cons; [done|apply noCreate_nil].
Qed.

Lemma noCreate_presubmitQueries gc cfg refs :
  noCreate (presubmitQueries gc cfg refs).
Proof.
  unfold presubmitQueries. apply noCreate_cons; [done|].
  destruct gc; [|apply noCreate_nil].
  apply noCreate_cons; [done|].
  destruct (_.2); [|apply noCreate_nil].
  apply noCreate_cons; [done|apply noCreate_nil].
Qed.

Lemma noCreate_postsubmitQueries gc cfg refs :
  noCreate (postsubmitQueries gc cfg refs).
Proof.
  unfold postsubmitQueries. apply noCreate_cons; [done|].
  destruct gc; [|apply noCreate_nil].
  apply noCreate_cons; [done|].
  destruct (_.2); [|apply noCreate_nil].
  apply noCreate_cons; [done|apply noCreate_nil].
Qed.

Lemma refs_complete_or_incomplete refs :
  refsComplete refs ∨ refsIncomplete refs.
Proof.
  unfold refsComplete, refsIncomplete.
  destruct (decide (prowapi.Org refs = "")); [tauto|].
  destruct (decide (prowapi.Repo refs = "")); [tauto|].
  destruct (decide (prowapi.BaseSHA refs = "")); [tauto|].
  destruct (decide (prowapi.BaseRef refs = "")); tauto.
Qed.

(** The handlers [handleMessage] chooses only consult the configuration
    and write to the log. *)
Lemma selectHandler_trace s eType jh cfg pe w :
  selectHandler s eType = Some jh →
  ∃ t, Trace (getProwJobSpec jh cfg pe w).2 = Trace w ++ t ∧ noCreate t.
Proof.
  unfold selectHandler. intros Hsel.
  repeat case_match; simplify_eq; simpl.
  - exists [Queried QAllPeriodics].
    rewrite periodic_run. split; [done|]. apply noCreate_cons; [done|apply noCreate_nil].
  - destruct (Refs pe) as [refs|] eqn:Erefs.
    + destruct (refs_complete_or_incomplete refs) as [Hc|Hi];
        [destruct (decide (prowapi.Pulls refs = [])) as [Hp|Hp]|].
      * destruct (presubmit_rejected (GitClient s) cfg pe w) as [e ->].
        { unfold presubmitRefsRejected. rewrite Erefs. by right. }
        exists []. split; [by rewrite app_nil_r|apply noCreate_nil].
      * rewrite (presubmit_run _ _ _ refs) by done.
        eexists. split; [done|apply noCreate_presubmitQueries].
      * destruct (presubmit_rejected (GitClient s) cfg pe w) as [e ->].
        { unfold presubmitRefsRejected. rewrite Erefs. by left. }
        exists []. split; [by rewrite app_nil_r|apply noCreate_nil].
    + destruct (presubmit_rejected (GitClient s) cfg pe w) as [e ->].
      { unfold presubmitRefsRejected. by rewrite Erefs. }
      exists []. split; [by rewrite app_nil_r|apply noCreate_nil].
  - destruct (Refs pe) as [refs|] eqn:Erefs.
    + destruct (refs_complete_or_incomplete refs) as [Hc|Hi].
      * rewrite (postsubmit_run _ _ _ refs) by done.
        eexists. split; [done|apply noCreate_postsubmitQueries].
      * destruct (postsubmit_rejected (GitClient s) cfg pe w) as [e ->].
        { unfold postsubmitRefsRejected. by rewrite Erefs. }
        exists []. split; [by rewrite app_nil_r|apply noCreate_nil].
    + destruct (postsubmit_rejected (GitClient s) cfg pe w) as [e ->].
      { unfold postsubmitRefsRejected. by rewrite Erefs. }
      exists []. split; [by rewrite app_nil_r|apply noCreate_nil].
Qed.

Lemma foldl_snoc_map {A B} (f : A → B) (l : list A) (acc : list B) :
  foldl (λ env kv, env ++ [f kv]) acc l = acc ++ (f <$> l).
Proof.
  revert acc. induction l as [|x l IH]; intros acc; simpl.
  - by rewrite app_nil_r.
  - rewrite IH. by rewrite <- app_assoc.
Qed.

(** A container keeps its variables and gains one per entry of the
    event's environment. *)
Lemma appendEnvs_spec pe i c :
  rangeMap_lawful →
  ∃ added,
    coreapi.Env (appendEnvs pe i c) = coreapi.Env c ++ added ∧
    added ≡ₚ envVars pe ∧
    coreapi.ContainerName (appendEnvs pe i c) = coreapi.ContainerName c ∧
    coreapi.Image (appendEnvs pe i c) = coreapi.Image c.
Proof.
  intros Hlaw. unfold appendEnvs, envVars. simpl.
  rewrite (foldl_snoc_map (λ kv, coreapi.mkEnvVar kv.1 kv.2)).
  eexists. split; [done|]. split; [|done].
  by rewrite (Hlaw (S i) (Envs pe)).
Qed.

(** C2. Once a spec is resolved, the dispatch goes on to the backend
    exactly when the allow-list holds the spec's cluster or the wildcard.
    Otherwise it builds a record from the resolved spec as it stands, with
    no labels and the event's annotations, and hands it to the reporter
    with its state set to [ErrorState] and its description set to the
    failure text, every other field as built; it returns the error that
    spells out the cluster. *)
Theorem cluster_admission s jh msg subscription allowedClusters w
    pe spec labels w1 :
  Unmarshal (getPayload msg) = (pe, None) →
  getProwJobSpec jh (ConfigAgent s) pe w = ((Some spec, labels, None), w1) →
  let out := handleProwJob s jh msg subscription allowedClusters w in
  let admitted :=
    "*" ∈ allowedClusters ∨ prowapi.Cluster spec ∈ allowedClusters in
  (admitted ↔
   ∃ pj rest, Trace out.2 = Trace w1 ++ CalledCreate pj :: rest) ∧
  (¬ admitted →
   let err :=
     "cluster " +:+ prowapi.Cluster spec +:+
     " is not allowed. Can be fixed by defining this cluster under pubsub_triggers -> allowed_clusters" in
   let built := NewProwJob spec None (Annotations pe) in
   let pj :=
     {| prowapi.Name := prowapi.Name built;
        prowapi.Labels := prowapi.Labels built;
        prowapi.Annotations := prowapi.Annotations built;
        prowapi.Spec := prowapi.Spec built;
        prowapi.Status :=
          {| prowapi.State := prowapi.ErrorState;
             prowapi.Description := "Failed creating prowjob: " +:+ err |} |} in
   out.1 = Some err ∧
   Trace out.2 =
     Trace w1 ++
     Logged WarnLevel "cluster not allowed" :: CalledShouldReport pj ::
     (if ShouldReport (Reporter s) pj then
        CalledReport pj ::
        match Report (Reporter s) pj with
        | Some _ => [Logged WarnLevel "Failed to report status."]
        | None => []
        end
      else []) ∧
   MessageCounter out.2 = MessageCounter w1 ∧
   ErrorCounter out.2 = ErrorCounter w1 ∧
   LabelMaps out.2 = LabelMaps w1).
Proof.
  intros Hpe Hspec out admitted. subst out admitted.
  rewrite handleProwJob_run, Hpe, Hspec.
  rewrite <- clusterIsAllowed_spec.
  destruct (clusterIsAllowed allowedClusters (prowapi.Cluster spec)).
  - split; [|by intros []].
    split; [intros _|done].
    destruct (mergeLabels_frame labels pe w1) as (Htrace & _).
    destruct (mergeLabels labels pe w1) as [merged w2].
    simpl in *. destruct (Create (Client s) _); simpl; rewrite Htrace; eauto.
  - split; [split; [done|]|].
    + intros (pj & rest & Heq). simpl in Heq.
      apply app_inv_head in Heq. discriminate.
    + intros _. done.
Qed.

(** C3. Whatever message is handled, the backend is asked to create a
    job only for a record built from a spec that was resolved for the
    message and whose cluster the allow-list admits; and when the cluster
    of a resolved spec is outside the allow-list, nothing that follows the
    resolution asks the backend to create a job. *)
Theorem create_only_after_admission s msg subscription allowedClusters w :
  (∃ t,
     Trace (handleMessage s msg subscription allowedClusters w).2 =
       Trace w ++ t ∧
     ∀ pj, CalledCreate pj ∈ t →
       ∃ eType jh pe spec labels w0 w1 merged,
         getAttributes msg !! prowEventType = Some eType ∧
         selectHandler s eType = Some jh ∧
         Unmarshal (getPayload msg) = (pe, None) ∧
         getProwJobSpec jh (ConfigAgent s) pe w0 =
           ((Some spec, labels, None), w1) ∧
         ("*" ∈ allowedClusters ∨ prowapi.Cluster spec ∈ allowedClusters) ∧
         pj = withEnvs pe (NewProwJob spec (Some merged) (Annotations pe))) ∧
  (∀ jh pe spec labels w0 w1,
     Unmarshal (getPayload msg) = (pe, None) →
     getProwJobSpec jh (ConfigAgent s) pe w0 =
       ((Some spec, labels, None), w1) →
     ¬ ("*" ∈ allowedClusters ∨ prowapi.Cluster spec ∈ allowedClusters) →
     ∃ t,
       Trace (handleProwJob s jh msg subscription allowedClusters w0).2 =
         Trace w1 ++ t ∧
       noCreate t).
Proof.
  split.
  - rewrite handleMessage_run. cbv zeta.
    destruct (getAttributes msg !! prowEventType) as [eType|] eqn:Eattr.
    2:{ eexists. split; [simpl; by rewrite <- app_assoc|].
        intros pj Hin. exfalso. revert pj Hin.
        change (noCreate [Logged InfoLevel "Received message";
                          Logged ErrorLevel "failed to read message"]).
        repeat (apply noCreate_cons; [done|]). apply noCreate_nil. }
    destruct (selectHandler s eType) as [jh|] eqn:Esel.
    2:{ eexists. split; [simpl; by rewrite <- app_assoc|].
        intros pj Hin. exfalso. revert pj Hin.
        change (noCreate [Logged InfoLevel "Received message";
                          Logged DebugLevel "Unsupported event type"]).
        repeat (apply noCreate_cons; [done|]). apply noCreate_nil. }
    set (w0 := appendTrace _ _).
    assert (Trace w0 = Trace w ++ [Logged InfoLevel "Received message"])
      as Hw0 by done.
    clearbody w0.
    assert (∃ t,
      Trace (handleProwJob s jh msg subscription allowedClusters w0).2 =
        Trace w0 ++ t ∧
      ∀ pj, CalledCreate pj ∈ t →
        ∃ pe spec labels w1 merged,
          Unmarshal (getPayload msg) = (pe, None) ∧
          getProwJobSpec jh (ConfigAgent s) pe w0 =
            ((Some spec, labels, None), w1) ∧
          ("*" ∈ allowedClusters ∨
           prowapi.Cluster spec ∈ allowedClusters) ∧
          pj = withEnvs pe (NewProwJob spec (Some merged) (Annotations pe)))
      as (t & Ht & Hcreate).
    { rewrite handleProwJob_run.
      destruct (Unmarshal (getPayload msg)) as [pe [e|]] eqn:Epe.
      { exists []. split; [by rewrite app_nil_r|]. intros pj Hin.
        inversion Hin. }
      destruct (selectHandler_trace s eType jh (ConfigAgent s) pe w0 Esel)
        as (tq & Htq & Hnq).
      destruct (getProwJobSpec jh (ConfigAgent s) pe w0)
        as [[[[spec|] labels] [e|]] w1] eqn:Eres; simpl in Htq.
      - eexists. split; [simpl; by rewrite Htq, <- app_assoc|].
        intros pj Hin. exfalso. revert pj Hin. apply noCreate_app; [done|].
        apply noCreate_cons; [done|]. apply noCreate_reportEffects.
      - destruct (clusterIsAllowed allowedClusters (prowapi.Cluster spec))
          eqn:Eallowed.
        + destruct (mergeLabels_frame labels pe w1) as (Hframe & _).
          destruct (mergeLabels labels pe w1) as [merged w2].
          simpl in Hframe.
          exists (tq ++ CalledCreate
                          (withEnvs pe (NewProwJob spec (Some merged)
                                                   (Annotations pe))) ::
                        match Create (Client s)
                                (withEnvs pe (NewProwJob spec (Some merged)
                                                (Annotations pe))) with
                        | Some e =>
                            Logged ErrorLevel
                              ("failed to create job " +:+ Quote (Name pe) +:+
                               " as " +:+
                               Quote (prowapi.Name
                                        (withEnvs pe
                                           (NewProwJob spec (Some merged)
                                              (Annotations pe))))) ::
                            reportEffects (Reporter s)
                              (errored
                                 (withEnvs pe (NewProwJob spec (Some merged)
                                                 (Annotations pe))) e)
                        | None =>
                            Logged InfoLevel "Job created." ::
                            reportEffects (Reporter s)
                              (triggered
                                 (withEnvs pe (NewProwJob spec (Some merged)
                                                 (Annotations pe))))
                        end).
          split.
          * simpl. destruct (Create (Client s) _); simpl;
              by rewrite Hframe, Htq, <- app_assoc.
          * intros pj Hin. apply elem_of_app in Hin as [Hin|Hin];
              [by destruct (Hnq pj)|].
            apply elem_of_cons in Hin as [Hin|Hin].
            -- injection Hin as ->.
               exists pe, spec, labels, w1, merged.
               repeat split; try done. by apply clusterIsAllowed_spec.
            -- exfalso. revert pj Hin.
               destruct (Create (Client s) _);
                 (apply noCreate_cons; [done|]);
                 apply noCreate_reportEffects.
        + eexists. split; [simpl; by rewrite Htq, <- app_assoc|].
          intros pj Hin. exfalso. revert pj Hin. apply noCreate_app; [done|].
          apply noCreate_cons; [done|]. apply noCreate_reportEffects.
      - eexists. split; [simpl; by rewrite Htq, <- app_assoc|].
        intros pj Hin. exfalso. revert pj Hin. apply noCreate_app; [done|].
        apply noCreate_cons; [done|]. apply noCreate_reportEffects.
      - exists tq. split; [done|]. intros pj Hin. by destruct (Hnq pj). }
    destruct (handleProwJob s jh msg subscription allowedClusters w0)
      as [[e|] wout]; simpl in Ht.
    + exists ([Logged InfoLevel "Received message"] ++ t ++
              [Logged DebugLevel "failed to create Prow Job"]).
      split; [simpl; by rewrite Ht, Hw0, <- !app_assoc|].
      intros pj Hin.
      apply elem_of_app in Hin as [Hin|Hin];
        [apply list_elem_of_singleton in Hin; discriminate|].
      apply elem_of_app in Hin as [Hin|Hin];
        [|apply list_elem_of_singleton in Hin; discriminate].
      destruct (Hcreate pj Hin) as (pe & spec & labels & w1 & merged & Hc).
      exists eType, jh, pe, spec, labels, w0, w1, merged. tauto.
    + exists ([Logged InfoLevel "Received message"] ++ t).
      split; [simpl; by rewrite Ht, Hw0, <- !app_assoc|].
      intros pj Hin.
      apply elem_of_app in Hin as [Hin|Hin];
        [apply list_elem_of_singleton in Hin; discriminate|].
      destruct (Hcreate pj Hin) as (pe & spec & labels & w1 & merged & Hc).
      exists eType, jh, pe, spec, labels, w0, w1, merged. tauto.
  - intros jh pe spec labels w0 w1 Hpe Hres Hout.
    rewrite handleProwJob_run, Hpe, Hres.
    rewrite <- clusterIsAllowed_spec in Hout.
    destruct (clusterIsAllowed allowedClusters (prowapi.Cluster spec));
      [done|].
    eexists. split; [done|].
    apply noCreate_cons; [done|]. apply noCreate_reportEffects.
Qed.


(** C8. The value the dispatch returns does not depend on the reporter:
    two subscribers that differ only in their reporter return the same
    value from [handleProwJob], and the same from [handleMessage], on
    every path.  Reporting a record asks the predicate first; when it is
    false, [Report] is not called; when [Report] fails, a warning is
    logged and nothing else happens. *)
Theorem reporting_never_changes_the_outcome
    cfg client gc r1 r2 jh msg subscription allowedClusters w :
  (handleProwJob (mkSubscriber cfg client gc r1) jh msg subscription
     allowedClusters w).1 =
  (handleProwJob (mkSubscriber cfg client gc r2) jh msg subscription
     allowedClusters w).1 ∧
  (handleMessage (mkSubscriber cfg client gc r1) msg subscription
     allowedClusters w).1 =
  (handleMessage (mkSubscriber cfg client gc r2) msg subscription
     allowedClusters w).1 ∧
  ∀ pj state err w',
    let seen :=
      withStatus pj
        {| prowapi.State := state;
           prowapi.Description :=
             match err with
             | Some e => "Failed creating prowjob: " +:+ e
             | None => "Successfully triggered prowjob."
             end |} in
    reportProwJob (mkSubscriber cfg client gc r1) pj state err w' =
    (tt, appendTrace w'
           (CalledShouldReport seen ::
            if ShouldReport r1 seen then
              CalledReport seen ::
              match Report r1 seen with
              | Some _ => [Logged WarnLevel "Failed to report status."]
              | None => []
              end
            else [])).
Proof.
  assert (Hdispatch : ∀ jh' w0,
    (handleProwJob (mkSubscriber cfg client gc r1) jh' msg subscription
       allowedClusters w0).1 =
    (handleProwJob (mkSubscriber cfg client gc r2) jh' msg subscription
       allowedClusters w0).1).
  { intros jh' w0. rewrite !handleProwJob_run. simpl.
    destruct (Unmarshal (getPayload msg)) as [pe [e|]]; [done|].
    destruct (getProwJobSpec jh' cfg pe w0) as [[[[spec|] labels] [e|]] w1];
      try done.
    destruct (clusterIsAllowed allowedClusters (prowapi.Cluster spec));
      [|done].
    destruct (mergeLabels labels pe w1) as [merged w2]. simpl.
    by destruct (Create client _). }
  split; [apply Hdispatch|]. split.
  - rewrite !handleMessage_run. cbv zeta.
    destruct (getAttributes msg !! prowEventType) as [eType|]; [|done].
    change (selectHandler (mkSubscriber cfg client gc r2) eType)
      with (selectHandler (mkSubscriber cfg client gc r1) eType).
    destruct (selectHandler _ eType) as [jh'|]; [|done].
    set (w0 := appendTrace _ _). clearbody w0.
    pose proof (Hdispatch jh' w0) as Heq.
    destruct (handleProwJob (mkSubscriber cfg client gc r1) jh' msg
                subscription allowedClusters w0) as [[e1|] w1],
             (handleProwJob (mkSubscriber cfg client gc r2) jh' msg
                subscription allowedClusters w0) as [[e2|] w2];
      simpl in Heq; by simplify_eq.
  - intros pj state err w' seen. by rewrite reportProwJob_run.
Qed.

(** C4. What the code does with a message that has no event type
    attribute, or one that is not recognised: it returns an error, counts
    the message, writes two lines to the log and makes no call on the
    configuration, the backend or the reporter; the error counter of the
    subscription keeps its value, because the child counter is fetched
    with [With] and [Inc] is never called on it. *)
Theorem unclassified_message_error_not_counted
    s msg subscription allowedClusters w :
  match getAttributes msg !! prowEventType with
  | None => True
  | Some eType => ¬ recognised eType
  end →
  let out := handleMessage s msg subscription allowedClusters w in
  (∃ e, out.1 = Some e) ∧
  (∃ line, Trace out.2 =
             Trace w ++ [Logged InfoLevel "Received message"; line] ∧
           ∃ lvl text, line = Logged lvl text) ∧
  LabelMaps out.2 = LabelMaps w ∧
  counterValue (MessageCounter out.2) subscription =
    S (counterValue (MessageCounter w) subscription) ∧
  counterValue (ErrorCounter out.2) subscription =
    counterValue (ErrorCounter w) subscription.
Proof.
  intros Hattr out. subst out. rewrite handleMessage_run. cbv zeta.
  assert (Herr : counterValue (CounterVec_With subscription (ErrorCounter w))
                   subscription =
                 counterValue (ErrorCounter w) subscription).
  { unfold counterValue, CounterVec_With.
    destruct (ErrorCounter w !! subscription) eqn:E; simpl;
      [by rewrite E|by rewrite lookup_insert_eq]. }
  assert (Hmsg : counterValue
                   (CounterVec_With_Inc subscription (MessageCounter w))
                   subscription =
                 S (counterValue (MessageCounter w) subscription)).
  { unfold counterValue, CounterVec_With_Inc. by rewrite lookup_insert_eq. }
  destruct (getAttributes msg !! prowEventType) as [eType|].
  - assert (selectHandler s eType = None) as ->.
    { unfold selectHandler, recognised in *.
      repeat case_match; try done;
        match goal with
        | Heq : String.eqb _ _ = true |- _ => apply String.eqb_eq in Heq
        end; tauto. }
    simpl. repeat split; eauto.
    eexists. split; [by rewrite <- app_assoc|]. eauto.
  - simpl. repeat split; eauto.
    eexists. split; [by rewrite <- app_assoc|]. eauto.
Qed.

End Admission.

(** ** Further properties of the lookup loops *)

Section Lookup.

Context {J : Type} (CouldRun : J → string → bool) (jobName : J → string)
        (branch name : string).

Lemma eligible_app (l1 l2 : list J) :
  eligible CouldRun jobName branch name (l1 ++ l2) =
  eligible CouldRun jobName branch name l1 ++
  eligible CouldRun jobName branch name l2.
Proof. unfold eligible. by rewrite !List.filter_app. Qed.

Lemma eligible_Permutation (l l' : list J) :
  l ≡ₚ l' →
  eligible CouldRun jobName branch name l ≡ₚ
  eligible CouldRun jobName branch name l'.
Proof.
  induction 1 as [|x l l' _ IH|x y l|l l' l'' _ IH1 _ IH2].
  - done.
  - rewrite !eligible_cons. case_match; by rewrite IH.
  - rewrite !eligible_cons. repeat case_match; try done. apply perm_swap.
  - by rewrite IH1.
Qed.

(** The order of the catalog does not matter to the presubmit and
    postsubmit lookup: two candidate lists that are permutations of each
    other give the same job, the same not-found outcome or the same
    ambiguity error. *)
Theorem scanJobs_order_irrelevant (l l' : list J) :
  l ≡ₚ l' →
  scanJobs CouldRun jobName branch name l None =
  scanJobs CouldRun jobName branch name l' None.
Proof.
  intros Hperm. rewrite !scanJobs_eligible.
  pose proof (eligible_Permutation l l' Hperm) as He.
  destruct (eligible CouldRun jobName branch name l) as [|j1 [|j2 rest]].
  - by apply Permutation_nil in He as ->.
  - apply Permutation_singleton_l in He. by rewrite <- He.
  - pose proof (Permutation_length He) as Hlen.
    by destruct (eligible CouldRun jobName branch name l') as [|? [|? ?]].
Qed.

(** A job that cannot run on the branch, or that has another name, can be
    added to or removed from the catalog at any position without changing
    the outcome of the lookup. *)
Theorem scanJobs_ignores_other_jobs (l1 l2 : list J) (job : J) :
  CouldRun job branch = false ∨ jobName job ≠ name →
  scanJobs CouldRun jobName branch name (l1 ++ job :: l2) None =
  scanJobs CouldRun jobName branch name (l1 ++ l2) None.
Proof.
  intros Hother. rewrite !scanJobs_eligible, !eligible_app, eligible_cons.
  assert (CouldRun job branch && String.eqb (jobName job) name = false)
    as ->; [|done].
  destruct Hother as [->|Hname]; [done|].
  apply String.eqb_neq in Hname as ->. by rewrite andb_false_r.
Qed.

End Lookup.

Section MoreResolution.

Context `{GoRuntime} `{Pjutil} `{ConfigMethods}.

(** In the periodic catalog the first job with the event's name wins:
    whatever follows it, even other jobs of the same name, the handler
    returns that job and no ambiguity error. *)
Theorem periodic_first_match_wins cfg pe w before job after :
  AllPeriodics cfg = before ++ job :: after →
  (∀ j : config.Periodic, j ∈ before → config.Name j ≠ Name pe) →
  config.Name job = Name pe →
  (periodic_getProwJobSpec cfg pe w).1 =
    (Some (PeriodicSpec job), config.Labels job, None).
Proof.
  intros Hcat Hbefore Hname. unfold periodic_getProwJobSpec. run.
  rewrite Hcat. clear Hcat.
  induction before as [|b before IH]; simpl.
  - apply String.eqb_eq in Hname. by rewrite Hname.
  - assert (String.eqb (config.Name b) (Name pe) = false) as ->.
    { apply String.eqb_neq. apply Hbefore. left. }
    apply IH. intros j Hj. apply Hbefore. by right.
Qed.

(** For refs that both kinds of event refuse because one of the four
    fields is empty, the presubmit and the postsubmit handler return the
    same error, provided the event has a pull or its org or repo is the
    empty field; neither consults the configuration. *)
Theorem presubmit_and_postsubmit_refuse_alike gc gc' cfg cfg' pe refs w :
  Refs pe = Some refs → refsIncomplete refs →
  prowapi.Org refs = "" ∨ prowapi.Repo refs = "" ∨ prowapi.Pulls refs ≠ [] →
  presubmit_getProwJobSpec gc cfg pe w =
  postsubmit_getProwJobSpec gc' cfg' pe w.
Proof.
  intros Hrefs Hinc Hwhich.
  unfold presubmit_getProwJobSpec, postsubmit_getProwJobSpec. rewrite Hrefs.
  destruct (Nat.eqb (String.length (prowapi.Org refs)) 0) eqn:E1; [done|].
  destruct (Nat.eqb (String.length (prowapi.Repo refs)) 0) eqn:E2; [done|].
  assert (Nat.eqb (length (prowapi.Pulls refs)) 0 = false) as ->.
  { destruct Hwhich as [Hw|[Hw|Hw]];
      [rewrite Hw in E1; discriminate|rewrite Hw in E2; discriminate|].
    by apply pulls_eqb_0_false. }
  destruct (Nat.eqb (String.length (prowapi.BaseSHA refs)) 0) eqn:E3; [done|].
  destruct (Nat.eqb (String.length (prowapi.BaseRef refs)) 0) eqn:E4; [done|].
  exfalso.
  destruct Hinc as [Hb|[Hb|[Hb|Hb]]]; rewrite Hb in *; discriminate.
Qed.

(** Looking an attribute up after storing it returns the stored value and
    no error, also when the value is the empty string; after deleting it
    the lookup fails with an error and the empty string. *)
Theorem extractFromAttribute_insert_delete attrs key value :
  extractFromAttribute (<[key := value]> attrs) key = (value, None) ∧
  ∃ e, extractFromAttribute (delete key attrs) key = ("", Some e).
Proof.
  unfold extractFromAttribute. split.
  - by rewrite lookup_insert_eq.
  - rewrite lookup_delete_eq. eauto.
Qed.

End MoreResolution.

(** ** Further properties of admission and merging *)

(** The allow-list admits a cluster when one of its parts does; the empty
    list admits nothing. *)
Theorem clusterIsAllowed_app l1 l2 cluster :
  clusterIsAllowed (l1 ++ l2) cluster =
    clusterIsAllowed l1 cluster || clusterIsAllowed l2 cluster ∧
  clusterIsAllowed [] cluster = false.
Proof.
  split; [|done].
  induction l1 as [|a l1 IH]; simpl; [done|].
  by destruct (String.eqb a "*" || String.eqb a cluster).
Qed.

Section Outcome.

Context `{GoRuntime} `{Pjutil} `{ConfigMethods}.

Lemma count_app p t1 t2 : count p (t1 ++ t2) = count p t1 + count p t2.
Proof. unfold count. by rewrite List.filter_app, length_app. Qed.

Lemma count_cons p e t :
  count p (e :: t) = (if p e then 1 else 0) + count p t.
Proof. unfold count. simpl. by destruct (p e). Qed.

Lemma resolutionOnly_count t :
  resolutionOnly t →
  count isCreate t = 0 ∧ count isShouldReport t = 0 ∧ noCreate t.
Proof.
  induction 1 as [|e t He _ (IH1 & IH2 & IH3)].
  - repeat split. apply noCreate_nil.
  - unfold count in *. destruct e; try done; simpl; repeat split; try done;
      by apply noCreate_cons.
Qed.

Lemma resolutionOnly_presubmitQueries gc cfg refs :
  resolutionOnly (presubmitQueries gc cfg refs).
Proof.
  unfold presubmitQueries, resolutionOnly.
  destruct gc; [destruct (_.2)|]; repeat constructor.
Qed.

Lemma resolutionOnly_postsubmitQueries gc cfg refs :
  resolutionOnly (postsubmitQueries gc cfg refs).
Proof.
  unfold postsubmitQueries, resolutionOnly.
  destruct gc; [destruct (_.2)|]; repeat constructor.
Qed.

Lemma count_reportEffects r pj :
  count isCreate (reportEffects r pj) = 0 ∧
  count isShouldReport (reportEffects r pj) = 1.
Proof.
  unfold reportEffects, count. simpl.
  by destruct (ShouldReport r pj); [destruct (Report r pj)|].
Qed.

Lemma presubmitOutcome_shape candidates refs pe :
  specOrError (presubmitOutcome candidates refs pe).
Proof.
  unfold presubmitOutcome, specOrError.
  destruct (eligible _ _ _ _ _) as [|? [|? ?]]; eauto.
Qed.

Lemma postsubmitOutcome_shape candidates refs pe :
  specOrError (postsubmitOutcome candidates refs pe).
Proof.
  unfold postsubmitOutcome, specOrError.
  destruct (eligible _ _ _ _ _) as [|? [|? ?]]; eauto.
Qed.

(** What the handlers chosen by [handleMessage] do to the world and what
    they return. *)
Lemma selectHandler_run s eType jh cfg pe w :
  selectHandler s eType = Some jh →
  ∃ t, (getProwJobSpec jh cfg pe w).2 = appendTrace w t ∧
       resolutionOnly t ∧
       specOrError (getProwJobSpec jh cfg pe w).1.
Proof.
  unfold selectHandler. intros Hsel.
  repeat case_match; simplify_eq; simpl.
  - rewrite periodic_run. eexists. split; [done|]. split.
    + repeat constructor.
    + unfold specOrError. simpl. destruct (List.find _ _); eauto.
  - destruct (Refs pe) as [refs|] eqn:Erefs.
    + destruct (refs_complete_or_incomplete refs) as [Hc|Hi];
        [destruct (decide (prowapi.Pulls refs = [])) as [Hp|Hp]|].
      * destruct (presubmit_rejected (GitClient s) cfg pe w) as [e ->].
        { unfold presubmitRefsRejected. rewrite Erefs. by right. }
        exists []. rewrite appendTrace_nil. unfold specOrError.
        split; [done|]. split; [constructor|eauto].
      * rewrite (presubmit_run _ _ _ refs) by done.
        eexists. split; [done|].
        split; [apply resolutionOnly_presubmitQueries|].
        apply presubmitOutcome_shape.
      * destruct (presubmit_rejected (GitClient s) cfg pe w) as [e ->].
        { unfold presubmitRefsRejected. rewrite Erefs. by left. }
        exists []. rewrite appendTrace_nil. unfold specOrError.
        split; [done|]. split; [constructor|eauto].
    + destruct (presubmit_rejected (GitClient s) cfg pe w) as [e ->].
      { unfold presubmitRefsRejected. by rewrite Erefs. }
      exists []. rewrite appendTrace_nil. unfold specOrError.
      split; [done|]. split; [constructor|eauto].
  - destruct (Refs pe) as [refs|] eqn:Erefs.
    + destruct (refs_complete_or_incomplete refs) as [Hc|Hi].
      * rewrite (postsubmit_run _ _ _ refs) by done.
        eexists. split; [done|].
        split; [apply resolutionOnly_postsubmitQueries|].
        apply postsubmitOutcome_shape.
      * destruct (postsubmit_rejected (GitClient s) cfg pe w) as [e ->].
        { unfold postsubmitRefsRejected. by rewrite Erefs. }
        exists []. rewrite appendTrace_nil. unfold specOrError.
        split; [done|]. split; [constructor|eauto].
    + destruct (postsubmit_rejected (GitClient s) cfg pe w) as [e ->].
      { unfold postsubmitRefsRejected. by rewrite Erefs. }
      exists []. rewrite appendTrace_nil. unfold specOrError.
      split; [done|]. split; [constructor|eauto].
Qed.

(** The dispatch under a handler chosen by [handleMessage]. *)
Lemma handleProwJob_selected s eType jh msg subscription allowedClusters w :
  selectHandler s eType = Some jh →
  let out := handleProwJob s jh msg subscription allowedClusters w in
  ∃ t, Trace out.2 = Trace w ++ t ∧
       MessageCounter out.2 = MessageCounter w ∧
       ErrorCounter out.2 = ErrorCounter w ∧
       (count isCreate t ≤ 1)%nat ∧
       count isShouldReport t =
         match (Unmarshal (getPayload msg)).2 with
         | None => 1
         | Some _ => 0
         end ∧
       (out.1 = None ↔
        ∃ pj, CalledCreate pj ∈ t ∧ Create (Client s) pj = None) ∧
       (allowedClusters = [] → count isCreate t = 0 ∧ out.1 ≠ None).
Proof.
  intros Hsel out. subst out. rewrite handleProwJob_run.
  destruct (Unmarshal (getPayload msg)) as [pe [e|]] eqn:Epe; simpl.
  { exists []. rewrite app_nil_r. repeat split; try done.
    - unfold count. simpl. lia.
    - intros (pj & Hin & _). inversion Hin. }
  destruct (selectHandler_run s eType jh (ConfigAgent s) pe w Hsel)
    as (tq & Hw1 & Hq & Hshape).
  destruct (resolutionOnly_count tq Hq) as (Hq1 & Hq2 & Hq3).
  destruct (getProwJobSpec jh (ConfigAgent s) pe w) as [res w1] eqn:Eres.
  simpl in Hw1, Hshape. subst w1.
  destruct Hshape as [(spec & labels & ->)|(e & ->)].
  - destruct (clusterIsAllowed allowedClusters (prowapi.Cluster spec))
      eqn:Eallowed.
    + destruct (mergeLabels_frame labels pe (appendTrace w tq))
        as (Hf1 & Hf2 & Hf3).
      destruct (mergeLabels labels pe (appendTrace w tq)) as [merged w2].
      simpl in Hf1, Hf2, Hf3. cbv zeta.
      set (pj0 := withEnvs pe (NewProwJob spec (Some merged)
                                          (Annotations pe))).
      assert (∀ tail r rec,
        tail = reportEffects r rec →
        ∀ line lvl text, line = Logged lvl text →
        count isCreate (tq ++ CalledCreate pj0 :: line :: tail) = 1 ∧
        count isShouldReport (tq ++ CalledCreate pj0 :: line :: tail) = 1 ∧
        ∀ pj, CalledCreate pj ∈ tq ++ CalledCreate pj0 :: line :: tail →
              pj = pj0) as Hpath.
      { intros tail r rec -> line lvl text ->.
        destruct (count_reportEffects r rec) as (Hr1 & Hr2).
        rewrite !count_app, !count_cons, Hq1, Hq2, Hr1, Hr2. simpl.
        repeat split.
        intros pj Hin. apply elem_of_app in Hin as [Hin|Hin];
          [by destruct (Hq3 pj)|].
        apply elem_of_cons in Hin as [Hin|Hin]; [by injection Hin|].
        apply elem_of_cons in Hin as [Hin|Hin]; [discriminate|].
        by destruct (noCreate_reportEffects r rec pj). }
      destruct (Create (Client s) pj0) as [e|] eqn:Ecreate; simpl;
        (eexists; split; [by rewrite Hf1; simpl; rewrite <- app_assoc|]);
        (split; [done|]; split; [done|]);
        edestruct Hpath as (Hc1 & Hc2 & Hc3); try reflexivity;
        rewrite Hc1, Hc2; (split; [lia|]); (split; [done|]); split.
      * split; [done|]. intros (pj & Hin & Hnone).
        apply Hc3 in Hin as ->. congruence.
      * by intros ->.
      * split; [|done]. intros _. exists pj0. split; [|done].
        apply elem_of_app. right. left.
      * by intros ->.
    + eexists. split; [simpl; by rewrite <- app_assoc|].
      destruct (count_reportEffects (Reporter s)
                  (errored (NewProwJob spec None (Annotations pe))
                     (clusterNotAllowed (prowapi.Cluster spec))))
        as (Hr1 & Hr2).
      rewrite !count_app, !count_cons, Hq1, Hq2, Hr1, Hr2. simpl.
      repeat split; try done; try lia.
      intros (pj & Hin & _). exfalso.
      apply elem_of_app in Hin as [Hin|Hin]; [by destruct (Hq3 pj)|].
      apply elem_of_cons in Hin as [Hin|Hin]; [discriminate|].
      by destruct (noCreate_reportEffects _ _ pj Hin).
  - eexists. split; [simpl; by rewrite <- app_assoc|].
    destruct (count_reportEffects (Reporter s)
                (errored (NewProwJob prowapi.emptySpec None (Annotations pe))
                   e)) as (Hr1 & Hr2).
    rewrite !count_app, !count_cons, Hq1, Hq2, Hr1, Hr2. simpl.
    repeat split; try done; try lia.
    intros (pj & Hin & _). exfalso.
    apply elem_of_app in Hin as [Hin|Hin]; [by destruct (Hq3 pj)|].
    apply elem_of_cons in Hin as [Hin|Hin]; [discriminate|].
    by destruct (noCreate_reportEffects _ _ pj Hin).
Qed.

(** One message, from counting it to the returned error. *)
Lemma handleMessage_summary s msg subscription allowedClusters w :
  let out := handleMessage s msg subscription allowedClusters w in
  ∃ t, Trace out.2 = Trace w ++ t ∧
       MessageCounter out.2 =
         CounterVec_With_Inc subscription (MessageCounter w) ∧
       ErrorCounter out.2 =
         match out.1 with
         | Some _ => CounterVec_With subscription (ErrorCounter w)
         | None => ErrorCounter w
         end ∧
       (count isCreate t ≤ 1)%nat ∧
       count isShouldReport t =
         (if reachesResolution s msg then 1 else 0) ∧
       (out.1 = None ↔
        ∃ pj, CalledCreate pj ∈ t ∧ Create (Client s) pj = None) ∧
       (allowedClusters = [] → count isCreate t = 0 ∧ out.1 ≠ None).
Proof.
  intros out. subst out. rewrite handleMessage_run. cbv zeta.
  unfold reachesResolution.
  destruct (getAttributes msg !! prowEventType) as [eType|].
  2:{ exists [Logged InfoLevel "Received message";
              Logged ErrorLevel "failed to read message"].
      split; [simpl; by rewrite <- app_assoc|].
      rewrite !count_cons. unfold count. simpl.
      repeat split; try done; try lia.
      intros (pj & Hin & _). exfalso.
      repeat (apply elem_of_cons in Hin as [Hin|Hin]; [discriminate|]).
      inversion Hin. }
  destruct (selectHandler s eType) as [jh|] eqn:Esel.
  2:{ exists [Logged InfoLevel "Received message";
              Logged DebugLevel "Unsupported event type"].
      split; [simpl; by rewrite <- app_assoc|].
      rewrite !count_cons. unfold count. simpl.
      repeat split; try done; try lia.
      intros (pj & Hin & _). exfalso.
      repeat (apply elem_of_cons in Hin as [Hin|Hin]; [discriminate|]).
      inversion Hin. }
  set (w0 := appendTrace _ _).
  assert (Trace w0 = Trace w ++ [Logged InfoLevel "Received message"])
    as Hw0 by done.
  assert (MessageCounter w0 =
          CounterVec_With_Inc subscription (MessageCounter w)) as Hm0 by done.
  assert (ErrorCounter w0 = ErrorCounter w) as He0 by done.
  clearbody w0.
  destruct (handleProwJob_selected s eType jh msg subscription
              allowedClusters w0 Esel)
    as (t & Ht & Hmc & Hec & Hc & Hr & Hiff & Hempty).
  destruct (handleProwJob s jh msg subscription allowedClusters w0)
    as [[e|] w1]; simpl in *.
  - exists ([Logged InfoLevel "Received message"] ++ t ++
            [Logged DebugLevel "failed to create Prow Job"]).
    split; [by rewrite Ht, Hw0, <- !app_assoc|].
    rewrite Hmc, Hm0, Hec, He0. split; [done|]. split; [done|].
    rewrite !count_app, Hr.
    change (count isCreate [Logged InfoLevel "Received message"]) with 0.
    change (count isCreate [Logged DebugLevel "failed to create Prow Job"])
      with 0.
    change (count isShouldReport [Logged InfoLevel "Received message"])
      with 0.
    change (count isShouldReport
              [Logged DebugLevel "failed to create Prow Job"]) with 0.
    split; [lia|].
    split; [by destruct (_.2); lia|].
    split.
    + split; [done|]. intros (pj & Hin & Hnone). apply Hiff.
      exists pj. split; [|done].
      apply elem_of_app in Hin as [Hin|Hin];
        [apply list_elem_of_singleton in Hin; discriminate|].
      apply elem_of_app in Hin as [Hin|Hin]; [done|].
      apply list_elem_of_singleton in Hin; discriminate.
    + intros Hnil. destruct (Hempty Hnil) as [-> _]. split; [lia|done].
  - exists ([Logged InfoLevel "Received message"] ++ t).
    split; [by rewrite Ht, Hw0, <- !app_assoc|].
    rewrite Hmc, Hm0, Hec, He0. split; [done|]. split; [done|].
    rewrite !count_app, Hr.
    change (count isCreate [Logged InfoLevel "Received message"]) with 0.
    change (count isShouldReport [Logged InfoLevel "Received message"])
      with 0.
    split; [lia|].
    split; [by destruct (_.2); lia|].
    split.
    + split; [|done]. intros _.
      destruct (proj1 Hiff eq_refl) as (pj & Hin & Hnone).
      exists pj. split; [|done]. apply elem_of_app. by right.
    + intros Hnil. by destruct (Hempty Hnil) as [_ Hne].
Qed.

(** [handleMessage] returns no error exactly when the backend was asked
    to create a job and accepted it, and it asks the backend at most once
    per message. *)
Theorem message_succeeds_iff_job_created s msg subscription allowedClusters w :
  let out := handleMessage s msg subscription allowedClusters w in
  ∃ t, Trace out.2 = Trace w ++ t ∧
       (count isCreate t ≤ 1)%nat ∧
       (out.1 = None ↔
        ∃ pj, CalledCreate pj ∈ t ∧ Create (Client s) pj = None).
Proof.
  intros out.
  destruct (handleMessage_summary s msg subscription allowedClusters w)
    as (t & Ht & _ & _ & Hc & _ & Hiff & _).
  exists t. fold out in Ht, Hiff. tauto.
Qed.

(** A message whose event type is recognised and whose payload decodes
    has exactly one record put before the reporter's [ShouldReport],
    whether it is resolved, rejected, refused by the backend or created;
    any other message puts none. *)
Theorem reporter_is_asked_once_per_decoded_message
    s msg subscription allowedClusters w :
  let out := handleMessage s msg subscription allowedClusters w in
  ∃ t, Trace out.2 = Trace w ++ t ∧
       count isShouldReport t = (if reachesResolution s msg then 1 else 0).
Proof.
  intros out.
  destruct (handleMessage_summary s msg subscription allowedClusters w)
    as (t & Ht & _ & _ & _ & Hr & _).
  exists t. fold out in Ht. tauto.
Qed.

(** Every message adds exactly one to the message counter of its
    subscription and leaves the message counters of the other
    subscriptions alone.  The error counter never changes value, for any
    subscription and on any path; when an error is returned its child for
    the subscription exists afterwards. *)
Theorem counters_after_a_message s msg subscription allowedClusters w :
  let out := handleMessage s msg subscription allowedClusters w in
  counterValue (MessageCounter out.2) subscription =
    S (counterValue (MessageCounter w) subscription) ∧
  (∀ other, other ≠ subscription →
     MessageCounter out.2 !! other = MessageCounter w !! other) ∧
  (∀ any, counterValue (ErrorCounter out.2) any =
          counterValue (ErrorCounter w) any) ∧
  (out.1 ≠ None → is_Some (ErrorCounter out.2 !! subscription)).
Proof.
  intros out.
  destruct (handleMessage_summary s msg subscription allowedClusters w)
    as (t & _ & Hmc & Hec & _).
  fold out in Hmc, Hec. rewrite Hmc, Hec.
  unfold counterValue, CounterVec_With_Inc, CounterVec_With.
  split; [by rewrite lookup_insert_eq|].
  split; [intros other Hne; by rewrite lookup_insert_ne|].
  split.
  - intros any. destruct (out.1); [|done].
    destruct (ErrorCounter w !! subscription) eqn:E; [done|].
    destruct (decide (subscription = any)) as [<-|Hne].
    + by rewrite lookup_insert_eq, E.
    + by rewrite lookup_insert_ne.
  - intros Hsome. destruct (out.1); [|done].
    destruct (ErrorCounter w !! subscription) eqn:E; [by rewrite E|].
    by rewrite lookup_insert_eq.
Qed.

(** With an empty allow-list no message creates a job: every message is
    answered with an error and the backend is never called. *)
Theorem empty_allow_list_creates_nothing s msg subscription w :
  let out := handleMessage s msg subscription [] w in
  out.1 ≠ None ∧
  ∃ t, Trace out.2 = Trace w ++ t ∧ noCreate t.
Proof.
  intros out.
  destruct (handleMessage_summary s msg subscription [] w)
    as (t & Ht & _ & _ & _ & _ & _ & Hempty).
  destruct (Hempty eq_refl) as [Hzero Hne]. split; [done|].
  exists t. split; [done|].
  intros pj Hin. unfold count in Hzero.
  apply list_elem_of_In in Hin.
  assert (In (CalledCreate pj) (List.filter isCreate t)) as Hf
    by (by apply filter_In).
  destruct (List.filter isCreate t); [done|discriminate].
Qed.

Lemma recognised_selectHandler s eType :
  recognised eType → ∃ jh, selectHandler s eType = Some jh.
Proof.
  unfold selectHandler. intros [-> | [-> | ->]]; simpl; eauto.
Qed.

(** The handlers [handleMessage] chooses return either a spec and no
    error or an error with neither spec nor labels, so the dispatch never
    meets a missing spec without an error; and they only query the
    configuration and write log lines. *)
Theorem selected_handler_returns_spec_or_error s eType jh cfg pe w :
  selectHandler s eType = Some jh →
  ((∃ spec labels,
      (getProwJobSpec jh cfg pe w).1 = (Some spec, labels, None)) ∨
   (∃ e, (getProwJobSpec jh cfg pe w).1 = (None, None, Some e))) ∧
  ∃ t, (getProwJobSpec jh cfg pe w).2 = appendTrace w t ∧
       Forall (λ e, match e with
                    | Logged _ _ | Queried _ => True
                    | _ => False
                    end) t.
Proof.
  intros Hsel.
  destruct (selectHandler_run s eType jh cfg pe w Hsel) as (t & Hw & Ht & Hr).
  split; [exact Hr|]. by exists t.
Qed.

(** A payload that does not decode, under a recognised event type: the
    decoding error is returned, and between the two log lines nothing is
    asked of the configuration, the backend or the reporter. *)
Theorem undecodable_payload_is_not_reported
    s msg subscription allowedClusters w eType pe e :
  getAttributes msg !! prowEventType = Some eType → recognised eType →
  Unmarshal (getPayload msg) = (pe, Some e) →
  let out := handleMessage s msg subscription allowedClusters w in
  out.1 = Some e ∧
  Trace out.2 =
    Trace w ++ [Logged InfoLevel "Received message";
                Logged DebugLevel "failed to create Prow Job"] ∧
  LabelMaps out.2 = LabelMaps w.
Proof.
  intros Hattr Hrec Hpe out. subst out.
  destruct (recognised_selectHandler s eType Hrec) as [jh Hsel].
  rewrite handleMessage_run, Hattr, Hsel. cbv zeta.
  rewrite handleProwJob_run, Hpe. simpl.
  by rewrite <- app_assoc.
Qed.

(** When the handler returns an error, the dispatch returns that error
    unchanged, without looking at the allow-list or the backend and
    without touching the counters or the label maps, after handing the
    reporter a record built from the empty spec and the event's
    annotations, with its state set to [ErrorState] and its description
    carrying the error; a spec returned along with the error is
    ignored. *)
Theorem resolution_failure_is_reported_and_returned
    s jh msg subscription allowedClusters w pe spec labels e w1 :
  Unmarshal (getPayload msg) = (pe, None) →
  getProwJobSpec jh (ConfigAgent s) pe w = ((spec, labels, Some e), w1) →
  let built := NewProwJob prowapi.emptySpec None (Annotations pe) in
  let reported :=
    {| prowapi.Name := prowapi.Name built;
       prowapi.Labels := prowapi.Labels built;
       prowapi.Annotations := prowapi.Annotations built;
       prowapi.Spec := prowapi.Spec built;
       prowapi.Status :=
         {| prowapi.State := prowapi.ErrorState;
            prowapi.Description := "Failed creating prowjob: " +:+ e |} |} in
  let out := handleProwJob s jh msg subscription allowedClusters w in
  out.1 = Some e ∧
  Trace out.2 =
    Trace w1 ++
    Logged DebugLevel "Failed getting prowjob spec" ::
    CalledShouldReport reported ::
    (if ShouldReport (Reporter s) reported then
       CalledReport reported ::
       match Report (Reporter s) reported with
       | Some _ => [Logged WarnLevel "Failed to report status."]
       | None => []
       end
     else []) ∧
  MessageCounter out.2 = MessageCounter w1 ∧
  ErrorCounter out.2 = ErrorCounter w1 ∧
  LabelMaps out.2 = LabelMaps w1.
Proof.
  intros Hpe Hres built reported out. subst out.
  rewrite handleProwJob_run, Hpe, Hres.
  by destruct spec.
Qed.

(** For an admitted spec the dispatch returns exactly what the backend
    answered.  The record the reporter sees is the one that was sent: in
    the error state with the backend's error when it was refused, in the
    triggered state when it was accepted. *)
Theorem backend_answer_is_reported_and_returned
    s jh msg subscription allowedClusters w pe spec labels w1 :
  Unmarshal (getPayload msg) = (pe, None) →
  getProwJobSpec jh (ConfigAgent s) pe w = ((Some spec, labels, None), w1) →
  clusterIsAllowed allowedClusters (prowapi.Cluster spec) = true →
  let out := handleProwJob s jh msg subscription allowedClusters w in
  ∃ sent reported,
    out.1 = Create (Client s) sent ∧
    Trace out.2 =
      Trace w1 ++ CalledCreate sent ::
      Logged (match Create (Client s) sent with
              | Some _ => ErrorLevel
              | None => InfoLevel
              end)
             (match Create (Client s) sent with
              | Some _ =>
                  "failed to create job " +:+ Quote (Name pe) +:+ " as " +:+
                  Quote (prowapi.Name sent)
              | None => "Job created."
              end) ::
      CalledShouldReport reported ::
      (if ShouldReport (Reporter s) reported then
         CalledReport reported ::
         match Report (Reporter s) reported with
         | Some _ => [Logged WarnLevel "Failed to report status."]
         | None => []
         end
       else []) ∧
    prowapi.Name reported = prowapi.Name sent ∧
    prowapi.Labels reported = prowapi.Labels sent ∧
    prowapi.Annotations reported = prowapi.Annotations sent ∧
    prowapi.Spec reported = prowapi.Spec sent ∧
    prowapi.Status reported =
      match Create (Client s) sent with
      | Some e =>
          {| prowapi.State := prowapi.ErrorState;
             prowapi.Description := "Failed creating prowjob: " +:+ e |}
      | None =>
          {| prowapi.State := prowapi.TriggeredState;
             prowapi.Description := "Successfully triggered prowjob." |}
      end.
Proof.
  intros Hpe Hres Hallowed out. subst out.
  rewrite handleProwJob_run, Hpe, Hres, Hallowed.
  destruct (mergeLabels_frame labels pe w1) as (Hframe & _).
  destruct (mergeLabels labels pe w1) as [merged w2]. simpl in *.
  exists (withEnvs pe (NewProwJob spec (Some merged) (Annotations pe))).
  destruct (Create (Client s) _) as [e|]; simpl; rewrite Hframe;
    eexists; (split; [done|]); (split; [reflexivity|]); done.
Qed.

Lemma forEach_mapStore_other r r' (l : list (string * string)) w :
  r' ≠ r →
  LabelMaps (forEach l (λ kv, mapStore r kv.1 kv.2) w).2 !! r' =
  LabelMaps w !! r'.
Proof.
  intros Hne. revert w. induction l as [|[k v] l IH]; intros w; [done|].
  simpl. run. rewrite IH. unfold mapStore. simpl.
  by rewrite lookup_insert_ne.
Qed.

(** Which maps of the store a merge can touch. *)
Lemma mergeLabels_store labels pe w r' :
  match labels with
  | Some r => r' ≠ r
  | None => is_Some (LabelMaps w !! r')
  end →
  LabelMaps (mergeLabels labels pe w).2 !! r' = LabelMaps w !! r'.
Proof.
  unfold mergeLabels. destruct labels as [r|]; intros Hr'; run.
  - pose proof (forEach_mapStore_other r r' (rangeMap 0 (Labels pe)) w Hr')
      as Hother.
    by destruct (forEach _ _ w) as [[] w'].
  - unfold makeMap. simpl.
    set (r := fresh (dom (LabelMaps w))).
    assert (r' ≠ r) as Hne.
    { intros ->. apply elem_of_dom in Hr'. by apply is_fresh in Hr'. }
    match goal with
    | |- context [forEach ?l ?f ?w0] =>
        pose proof (forEach_mapStore_other r r' l w0 Hne) as Hother;
        destruct (forEach l f w0) as [[] w']
    end.
    simpl in *. by rewrite Hother, lookup_insert_ne.
Qed.

Lemma handleProwJob_admitted_store
    s jh msg subscription allowedClusters w pe spec labels w1 :
  Unmarshal (getPayload msg) = (pe, None) →
  getProwJobSpec jh (ConfigAgent s) pe w = ((Some spec, labels, None), w1) →
  clusterIsAllowed allowedClusters (prowapi.Cluster spec) = true →
  LabelMaps (handleProwJob s jh msg subscription allowedClusters w).2 =
  LabelMaps (mergeLabels labels pe w1).2.
Proof.
  intros Hpe Hres Hallowed.
  rewrite handleProwJob_run, Hpe, Hres, Hallowed.
  destruct (mergeLabels labels pe w1) as [merged w2]. simpl.
  by destruct (Create (Client s) _).
Qed.

(** An admitted dispatch writes the event's labels into the label map of
    the job definition itself: whether or not the backend accepts the
    job, the definition's map afterwards holds the event's labels laid
    over its former content, so a later event resolved to the same job
    starts from them.  The maps of other definitions are not touched. *)
Theorem event_labels_are_written_into_the_job_definition
    s jh msg subscription allowedClusters w pe spec r w1 :
  rangeMap_lawful →
  Unmarshal (getPayload msg) = (pe, None) →
  getProwJobSpec jh (ConfigAgent s) pe w = ((Some spec, Some r, None), w1) →
  clusterIsAllowed allowedClusters (prowapi.Cluster spec) = true →
  is_Some (LabelMaps w1 !! r) →
  let out := handleProwJob s jh msg subscription allowedClusters w in
  labelsOf (Some r) out.2 = Labels pe ∪ labelsOf (Some r) w1 ∧
  LabelMaps out.2 !! r = Some (Labels pe ∪ labelsOf (Some r) w1) ∧
  ∀ r', r' ≠ r → LabelMaps out.2 !! r' = LabelMaps w1 !! r'.
Proof.
  intros Hlaw Hpe Hres Hallowed [m Hm] out. subst out.
  unfold labelsOf at 1.
  rewrite (handleProwJob_admitted_store _ _ _ _ _ _ pe spec (Some r) w1)
    by done.
  destruct (mergeLabels_run (Some r) pe w1 Hlaw)
    as (Hmerged & _ & _ & _ & Hstore).
  assert (LabelMaps (mergeLabels (Some r) pe w1).2 !! r =
          Some (Labels pe ∪ labelsOf (Some r) w1)) as Hr.
  { destruct (Hstore r eq_refl) as [Hs|[Hempty Hs]].
    - by rewrite Hs, Hmerged.
    - rewrite Hs, Hempty. unfold labelsOf. rewrite Hm. simpl.
      by rewrite (left_id_L ∅ (∪)). }
  split; [|split; [done|]].
  - by rewrite Hr.
  - intros r' Hne. by apply (mergeLabels_store (Some r)).
Qed.

(** The record sent for an admitted spec, and what follows it in the
    trace. *)
Lemma handleProwJob_admitted_trace
    s jh msg subscription allowedClusters w pe spec labels w1 :
  Unmarshal (getPayload msg) = (pe, None) →
  getProwJobSpec jh (ConfigAgent s) pe w = ((Some spec, labels, None), w1) →
  clusterIsAllowed allowedClusters (prowapi.Cluster spec) = true →
  ∃ rest,
    Trace (handleProwJob s jh msg subscription allowedClusters w).2 =
    Trace w1 ++
    CalledCreate
      (withEnvs pe (NewProwJob spec (Some (mergeLabels labels pe w1).1)
                               (Annotations pe))) :: rest.
Proof.
  intros Hpe Hres Hallowed.
  rewrite handleProwJob_run, Hpe, Hres, Hallowed.
  destruct (mergeLabels_frame labels pe w1) as (Hframe & _).
  destruct (mergeLabels labels pe w1) as [merged w2]. simpl in *.
  destruct (Create (Client s) _); simpl; rewrite Hframe; eauto.
Qed.

(** The environment loop on a record. *)
Lemma withEnvs_spec pe pj :
  rangeMap_lawful →
  (Envs pe = ∅ ∨ prowapi.PodSpec (prowapi.Spec pj) = None →
   withEnvs pe pj = pj) ∧
  prowapi.Name (withEnvs pe pj) = prowapi.Name pj ∧
  prowapi.Labels (withEnvs pe pj) = prowapi.Labels pj ∧
  prowapi.Annotations (withEnvs pe pj) = prowapi.Annotations pj ∧
  prowapi.Status (withEnvs pe pj) = prowapi.Status pj ∧
  prowapi.Cluster (prowapi.Spec (withEnvs pe pj)) =
    prowapi.Cluster (prowapi.Spec pj) ∧
  (∀ pod, prowapi.PodSpec (prowapi.Spec pj) = Some pod →
     ∃ pod',
       prowapi.PodSpec (prowapi.Spec (withEnvs pe pj)) = Some pod' ∧
       length (coreapi.Containers pod') = length (coreapi.Containers pod) ∧
       ∀ i c, coreapi.Containers pod !! i = Some c →
         ∃ c', coreapi.Containers pod' !! i = Some c' ∧
               length (coreapi.Env c') =
                 length (coreapi.Env c) + size (Envs pe)).
Proof.
  intros Hlaw. split; [|repeat split].
  - intros [Hempty|Hnone]; unfold withEnvs; [|by rewrite Hnone].
    destruct pj as [n l a [j c r [[cs]|]] st]; simpl; [|done].
    do 4 f_equal. apply list_eq. intros i.
    rewrite list_lookup_imap. destruct (cs !! i) as [[cn im env]|]; [|done].
    simpl. unfold appendEnvs. simpl. do 2 f_equal.
    assert (rangeMap (S i) (Envs pe) = []) as ->; [|done].
    apply Permutation_nil. rewrite (Hlaw (S i) (Envs pe)), Hempty.
    by rewrite map_to_list_empty.
  - unfold withEnvs. by destruct (prowapi.PodSpec _).
  - unfold withEnvs. by destruct (prowapi.PodSpec _).
  - unfold withEnvs. by destruct (prowapi.PodSpec _).
  - unfold withEnvs. by destruct (prowapi.PodSpec _).
  - unfold withEnvs. by destruct (prowapi.PodSpec _).
  - intros pod Hpod. unfold withEnvs. rewrite Hpod. simpl.
    eexists. split; [done|]. simpl. split; [by rewrite length_imap|].
    intros i c Hc. exists (appendEnvs pe i c).
    split; [by rewrite list_lookup_imap, Hc|].
    destruct (appendEnvs_spec pe i c Hlaw) as (added & -> & Hperm & _).
    rewrite length_app, Hperm. unfold envVars.
    by rewrite length_fmap, length_map_to_list.
Qed.

(** When the resolved job has no label map, the dispatch makes a fresh
    one for the record: the record sent to the backend is built with
    exactly the event's labels, and no map that was in the store before
    is changed. *)
Theorem job_without_labels_gets_a_fresh_map
    s jh msg subscription allowedClusters w pe spec w1 :
  rangeMap_lawful →
  Unmarshal (getPayload msg) = (pe, None) →
  getProwJobSpec jh (ConfigAgent s) pe w = ((Some spec, None, None), w1) →
  clusterIsAllowed allowedClusters (prowapi.Cluster spec) = true →
  let out := handleProwJob s jh msg subscription allowedClusters w in
  let built := NewProwJob spec (Some (Labels pe)) (Annotations pe) in
  (∃ submitted rest,
     Trace out.2 = Trace w1 ++ CalledCreate submitted :: rest ∧
     prowapi.Name submitted = prowapi.Name built ∧
     prowapi.Labels submitted = prowapi.Labels built ∧
     prowapi.Annotations submitted = prowapi.Annotations built ∧
     prowapi.Status submitted = prowapi.Status built ∧
     prowapi.Cluster (prowapi.Spec submitted) =
       prowapi.Cluster (prowapi.Spec built)) ∧
  ∀ r', is_Some (LabelMaps w1 !! r') →
        LabelMaps out.2 !! r' = LabelMaps w1 !! r'.
Proof.
  intros Hlaw Hpe Hres Hallowed out built. subst out. split.
  - destruct (handleProwJob_admitted_trace s jh msg subscription
                allowedClusters w pe spec None w1 Hpe Hres Hallowed)
      as [rest Hrest].
    destruct (mergeLabels_run None pe w1 Hlaw) as (Hmerged & _).
    rewrite Hmerged in Hrest. unfold labelsOf in Hrest.
    rewrite (right_id_L ∅ (∪)) in Hrest. fold built in Hrest.
    exists (withEnvs pe built), rest. split; [exact Hrest|].
    destruct (withEnvs_spec pe built Hlaw) as (_ & ? & ? & ? & ? & ? & _).
    done.
  - rewrite (handleProwJob_admitted_store _ _ _ _ _ _ pe spec None w1)
      by done.
    intros r' Hr'. by apply (mergeLabels_store None).
Qed.

(** The record sent to the backend for an admitted spec, against the one
    [NewProwJob] built from the merged labels: every container of its pod
    spec holds exactly as many more variables as the event has
    environment entries, whatever it held before; and for an event
    without entries, or a job without pod spec, the record is sent
    exactly as it was built. *)
Theorem sent_record_gains_one_variable_per_entry
    s jh msg subscription allowedClusters w pe spec labels w1 :
  rangeMap_lawful →
  Unmarshal (getPayload msg) = (pe, None) →
  getProwJobSpec jh (ConfigAgent s) pe w = ((Some spec, labels, None), w1) →
  clusterIsAllowed allowedClusters (prowapi.Cluster spec) = true →
  let out := handleProwJob s jh msg subscription allowedClusters w in
  let built :=
    NewProwJob spec (Some (Labels pe ∪ labelsOf labels w1))
               (Annotations pe) in
  ∃ submitted rest,
    Trace out.2 = Trace w1 ++ CalledCreate submitted :: rest ∧
    (Envs pe = ∅ ∨ prowapi.PodSpec (prowapi.Spec built) = None →
     submitted = built) ∧
    (∀ pod, prowapi.PodSpec (prowapi.Spec built) = Some pod →
       ∃ pod',
         prowapi.PodSpec (prowapi.Spec submitted) = Some pod' ∧
         length (coreapi.Containers pod') = length (coreapi.Containers pod) ∧
         ∀ i c, coreapi.Containers pod !! i = Some c →
           ∃ c', coreapi.Containers pod' !! i = Some c' ∧
                 length (coreapi.Env c') =
                   length (coreapi.Env c) + size (Envs pe)).
Proof.
  intros Hlaw Hpe Hres Hallowed out built. subst out.
  destruct (handleProwJob_admitted_trace s jh msg subscription
              allowedClusters w pe spec labels w1 Hpe Hres Hallowed)
    as [rest Hrest].
  destruct (mergeLabels_run labels pe w1 Hlaw) as (Hmerged & _).
  rewrite Hmerged in Hrest. fold built in Hrest.
  exists (withEnvs pe built), rest. split; [exact Hrest|].
  destruct (withEnvs_spec pe built Hlaw) as (Hid & _ & _ & _ & _ & _ & Hpod).
  by split.
Qed.

End Outcome.

Section Publishing.

Context `{GoRuntime} `{Pjutil} `{ConfigMethods} `{JsonMarshal}.

(** [ToMessage] marks every event as periodic, also one that carries
    refs: it fails only when the encoding fails, and when the payload
    decodes back to the event, handling the message looks the event's name
    up among the periodics, so that an event naming no periodic is
    answered with the error that the periodic job was not found. *)
Theorem ToMessage_marks_every_event_periodic
    s pe m subscription allowedClusters w :
  ToMessage pe = (Some m, None) →
  Unmarshal (getPayload m) = (pe, None) →
  (∀ job : config.Periodic,
     job ∈ AllPeriodics (ConfigAgent s) → config.Name job ≠ Name pe) →
  (Marshal pe).2 = None ∧
  getPayload m = (Marshal pe).1 ∧
  extractFromAttribute (getAttributes m) prowEventType =
    (periodicProwJobEvent, None) ∧
  (handleMessage s m subscription allowedClusters w).1 =
    Some ("failed to find associated periodic job " +:+ Quote (Name pe)).
Proof.
  unfold ToMessage. intros Hto Hpe Habsent.
  destruct (Marshal pe) as [data [e|]]; [discriminate|].
  injection Hto as <-. simpl in Hpe.
  assert (({[prowEventType := periodicProwJobEvent]} : gmap string string)
            !! prowEventType = Some periodicProwJobEvent) as Hattr
    by apply lookup_singleton_eq.
  split; [done|]. split; [done|]. split.
  { unfold extractFromAttribute. cbn [getAttributes]. by rewrite Hattr. }
  rewrite handleMessage_run. cbn [getAttributes]. rewrite Hattr.
  change (selectHandler s periodicProwJobEvent)
    with (Some periodicJobHandler).
  cbv beta iota zeta. rewrite handleProwJob_run. cbn [getPayload].
  rewrite Hpe.
  cbn [getProwJobSpec periodicJobHandler]. rewrite periodic_run.
  rewrite <- periodicScan_find, periodicScan_absent by done.
  done.
Qed.

End Publishing.

(** ** The theorems at work on the concrete instantiation *)

Import Fixture.

(** The static catalog holds [hans] on another branch, [kurt] and [hans]
    on [main]: the event resolves to the last one. *)
Lemma resolution_by_branch_then_name_witness :
  (presubmit_getProwJobSpec None cfg hansEvent world).1 =
    (Some (PresubmitSpec hans mainRefs), Some 2%positive, None) ∧
  (postsubmit_getProwJobSpec None cfg hansEvent world).1 =
    (Some (PostsubmitSpec hansPost mainRefs), None, None).
Proof.
  destruct (resolution_by_branch_then_name None cfg hansEvent mainRefs world
              eq_refl) as [Hpre Hpost].
  { repeat split; discriminate. }
  split.
  - destruct Hpre as (_ & _ & Hone); [discriminate|].
    apply Hone. reflexivity.
  - destruct Hpost as (_ & _ & Hone). apply Hone. reflexivity.
Defined.

(** A failed fetch resolves [hans] from the static catalog; a fetch that
    returns only [kurt] does not find [hans]. *)
Lemma inrepoconfig_failure_falls_back_to_static_witness :
  (presubmit_getProwJobSpec (Some gitClient) cfg hansEvent world).1 =
    (Some (PresubmitSpec hans mainRefs), Some 2%positive, None) ∧
  (presubmit_getProwJobSpec (Some gitClient) cfgInRepo hansEvent world).1 =
    (None, None,
     Some ("failed to find associated presubmit job " +:+ Quote "hans")).
Proof.
  split.
  - destruct (inrepoconfig_failure_falls_back_to_static gitClient cfg
                hansEvent mainRefs world eq_refl) as [Hpre _].
    { repeat split; discriminate. }
    rewrite (Hpre ltac:(discriminate) [] (Some "checkout client is nil")
               eq_refl).
    reflexivity.
  - destruct (inrepoconfig_failure_falls_back_to_static gitClient cfgInRepo
                hansEvent mainRefs world eq_refl) as [Hpre _].
    { repeat split; discriminate. }
    rewrite (Hpre ltac:(discriminate) [kurt] None eq_refl).
    reflexivity.
Defined.

(** An event without pulls is refused as a presubmit and resolved as a
    postsubmit; an event without refs is refused as a postsubmit. *)
Lemma incomplete_refs_are_refused_witness :
  (∃ e, presubmit_getProwJobSpec None cfg noPullsEvent world =
        ((None, None, Some e), world)) ∧
  (∃ e, postsubmit_getProwJobSpec None cfg nightlyEvent world =
        ((None, None, Some e), world)) ∧
  (postsubmit_getProwJobSpec None cfg noPullsEvent world).1 =
    (Some (PostsubmitSpec hansPost
             {| prowapi.Org := "o"; prowapi.Repo := "r";
                prowapi.BaseRef := "main"; prowapi.BaseSHA := "abc";
                prowapi.Pulls := [] |}), None, None).
Proof.
  split; [|split].
  - apply (incomplete_refs_are_refused None cfg noPullsEvent world).
    right. reflexivity.
  - apply (incomplete_refs_are_refused None cfg nightlyEvent world).
    exact I.
  - destruct (incomplete_refs_are_refused None cfg noPullsEvent world)
      as (_ & _ & Hgo).
    rewrite (Hgo _ eq_refl); [reflexivity| |reflexivity].
    repeat split; discriminate.
Defined.

(** No periodic is called [ghost]. *)
Lemma periodic_resolution_by_name_witness :
  (periodic_getProwJobSpec cfg ghostEvent world).1 =
    (None, None,
     Some ("failed to find associated periodic job " +:+ Quote "ghost")).
Proof.
  apply (periodic_resolution_by_name cfg ghostEvent world).
  intros job Hin. apply list_elem_of_singleton in Hin. subst job.
  discriminate.
Defined.

(** Two events named [nightly], one with refs and annotations, against
    two configurations with the same periodics. *)
Lemma periodic_resolution_ignores_the_rest_witness :
  getProwJobSpec periodicJobHandler cfg nightlyEvent world =
  getProwJobSpec periodicJobHandler cfgInRepo
    {| Name := "nightly"; Refs := Some mainRefs; Envs := ∅; Labels := ∅;
       Annotations := {[ "why" := "retest" ]} |} world.
Proof.
  apply (periodic_resolution_ignores_the_rest subscriber
           {| ConfigAgent := cfgInRepo; Client := backend;
              GitClient := Some gitClient; Reporter := quietReporter |});
    reflexivity.
Defined.

(** [hans] runs on [build], which the allow-list [other] does not
    admit. *)
Lemma cluster_admission_witness :
  (handleProwJob subscriber (presubmitJobHandler None) (msg ∅ [Byte.x01])
     "sub" ["other"] world).1 =
  Some ("cluster build is not allowed. Can be fixed by defining this cluster under pubsub_triggers -> allowed_clusters") ∧
  ∃ reported,
    CalledReport reported ∈
      Trace (handleProwJob subscriber (presubmitJobHandler None)
               (msg ∅ [Byte.x01]) "sub" ["other"] world).2 ∧
    prowapi.State (prowapi.Status reported) = prowapi.ErrorState ∧
    prowapi.Cluster (prowapi.Spec reported) = "build".
Proof.
  assert (Hpe : Unmarshal (getPayload (msg ∅ [Byte.x01])) = (hansEvent, None))
    by reflexivity.
  assert (Hres : getProwJobSpec (presubmitJobHandler None)
                   (ConfigAgent subscriber) hansEvent world =
                 ((Some (PresubmitSpec hans mainRefs), Some 2%positive, None),
                  (presubmit_getProwJobSpec None cfg hansEvent world).2))
    by reflexivity.
  destruct (cluster_admission subscriber (presubmitJobHandler None)
              (msg ∅ [Byte.x01]) "sub" ["other"] world hansEvent
              (PresubmitSpec hans mainRefs) (Some 2%positive)
              (presubmit_getProwJobSpec None cfg hansEvent world).2
              Hpe Hres) as [_ Hrejected].
  destruct Hrejected as (Hout & Htrace & _).
  { intros [Hin|Hin]; apply list_elem_of_singleton in Hin; discriminate. }
  split; [exact Hout|].
  eexists. split.
  - rewrite Htrace. apply elem_of_app. right.
    apply elem_of_cons. right. apply elem_of_cons. right.
    apply elem_of_cons. left. reflexivity.
  - split; reflexivity.
Defined.

(** The same rejected dispatch makes no call to [Create]. *)
Lemma create_only_after_admission_witness :
  ∃ t,
    Trace (handleProwJob subscriber (presubmitJobHandler None)
             (msg ∅ [Byte.x01]) "sub" ["other"] world).2 =
      Trace (presubmit_getProwJobSpec None cfg hansEvent world).2 ++ t ∧
    noCreate t.
Proof.
  assert (Hpe : Unmarshal (getPayload (msg ∅ [Byte.x01])) = (hansEvent, None))
    by reflexivity.
  assert (Hres : getProwJobSpec (presubmitJobHandler None)
                   (ConfigAgent subscriber) hansEvent world =
                 ((Some (PresubmitSpec hans mainRefs), Some 2%positive, None),
                  (presubmit_getProwJobSpec None cfg hansEvent world).2))
    by reflexivity.
  destruct (create_only_after_admission subscriber (msg ∅ [Byte.x01])
              "sub" ["other"] world) as [_ Hrejected].
  apply (Hrejected (presubmitJobHandler None) hansEvent
           (PresubmitSpec hans mainRefs) (Some 2%positive) world
           (presubmit_getProwJobSpec None cfg hansEvent world).2
           Hpe Hres).
  intros [Hin|Hin]; apply list_elem_of_singleton in Hin; discriminate.
Defined.

(** The iteration order of the instantiation visits each entry once. *)
Lemma fixture_rangeMap_lawful : rangeMap_lawful.
Proof. intros n m. reflexivity. Defined.


(** A message without attributes and a message of an unknown type leave
    the error counter of the subscription at zero. *)
Lemma unclassified_message_error_not_counted_witness :
  counterValue
    (ErrorCounter (handleMessage subscriber (msg ∅ [Byte.x01]) "sub" ["*"]
                     world).2) "sub" = 0 ∧
  counterValue
    (ErrorCounter
       (handleMessage subscriber
          (msg {[ prowEventType := "prow.k8s.io/pubsub.Unknown" ]}
               [Byte.x01]) "sub" ["*"] world).2) "sub" = 0.
Proof.
  split.
  - destruct (unclassified_message_error_not_counted subscriber
                (msg ∅ [Byte.x01]) "sub" ["*"] world)
      as (_ & _ & _ & _ & Herr).
    { exact I. }
    rewrite Herr. reflexivity.
  - destruct (unclassified_message_error_not_counted subscriber
                (msg {[ prowEventType := "prow.k8s.io/pubsub.Unknown" ]}
                     [Byte.x01]) "sub" ["*"] world) as (_ & _ & _ & _ & Herr).
    { vm_compute. intros [Heq|[Heq|Heq]]; discriminate. }
    rewrite Herr. reflexivity.
Defined.

(** ** The further properties on the concrete instantiation *)

Import FixtureMarshal.

(** The static catalog read backwards resolves [hans] to the same job. *)
Lemma scanJobs_order_irrelevant_witness :
  scanJobs PresubmitCouldRun (λ j, config.Name j) "main" "hans"
    [hansOnRelease; kurt; hans] None =
  scanJobs PresubmitCouldRun (λ j, config.Name j) "main" "hans"
    [hans; kurt; hansOnRelease] None.
Proof.
  apply (scanJobs_order_irrelevant PresubmitCouldRun (λ j, config.Name j)
           "main" "hans" [hansOnRelease; kurt; hans]
           [hans; kurt; hansOnRelease]).
  exact (Permutation_rev [hansOnRelease; kurt; hans]).
Defined.

(** [kurt] has another name and can be left out. *)
Lemma scanJobs_ignores_other_jobs_witness :
  scanJobs PresubmitCouldRun (λ j, config.Name j) "main" "hans"
    [hansOnRelease; kurt; hans] None =
  scanJobs PresubmitCouldRun (λ j, config.Name j) "main" "hans"
    [hansOnRelease; hans] None.
Proof.
  apply (scanJobs_ignores_other_jobs PresubmitCouldRun (λ j, config.Name j)
           "main" "hans" [hansOnRelease] [hans] kurt).
  right. discriminate.
Defined.

(** Two periodics called [nightly]: the first is returned. *)
Lemma periodic_first_match_wins_witness :
  (periodic_getProwJobSpec
     {| AllPeriodics :=
          [nightly;
           {| config.PeriodicBase := base "nightly" "other" None;
              config.Cron := "@hourly" |}];
        GetPresubmits := λ _ _ _ _, ([], None);
        GetPresubmitsStatic := λ _, [];
        GetPostsubmits := λ _ _ _, ([], None);
        GetPostsubmitsStatic := λ _, [] |}
     nightlyEvent world).1 =
  (Some (PeriodicSpec nightly), Some 1%positive, None).
Proof.
  apply (periodic_first_match_wins _ nightlyEvent world [] nightly
           [{| config.PeriodicBase := base "nightly" "other" None;
               config.Cron := "@hourly" |}]).
  - reflexivity.
  - intros j Hj. inversion Hj.
  - reflexivity.
Defined.

(** An event without org is refused alike as presubmit and postsubmit. *)
Lemma presubmit_and_postsubmit_refuse_alike_witness :
  presubmit_getProwJobSpec None cfg
    {| Name := "hans";
       Refs := Some {| prowapi.Org := ""; prowapi.Repo := "r";
                       prowapi.BaseRef := "main"; prowapi.BaseSHA := "abc";
                       prowapi.Pulls := [] |};
       Envs := ∅; Labels := ∅; Annotations := ∅ |} world =
  postsubmit_getProwJobSpec (Some gitClient) cfgInRepo
    {| Name := "hans";
       Refs := Some {| prowapi.Org := ""; prowapi.Repo := "r";
                       prowapi.BaseRef := "main"; prowapi.BaseSHA := "abc";
                       prowapi.Pulls := [] |};
       Envs := ∅; Labels := ∅; Annotations := ∅ |} world.
Proof.
  set (refs := {| prowapi.Org := ""; prowapi.Repo := "r";
                  prowapi.BaseRef := "main"; prowapi.BaseSHA := "abc";
                  prowapi.Pulls := [] |}).
  set (pe := {| Name := "hans"; Refs := Some refs; Envs := ∅; Labels := ∅;
                Annotations := ∅ |}).
  apply (presubmit_and_postsubmit_refuse_alike None (Some gitClient) cfg
           cfgInRepo pe refs world eq_refl).
  - left. reflexivity.
  - left. reflexivity.
Defined.

(** The presubmit handler of the subscriber only queries and logs. *)
Lemma selected_handler_returns_spec_or_error_witness :
  ∃ t, (getProwJobSpec (presubmitJobHandler None) cfg hansEvent world).2 =
         appendTrace world t ∧
       Forall (λ e, match e with
                    | Logged _ _ | Queried _ => True
                    | _ => False
                    end) t.
Proof.
  assert (Hsel : selectHandler subscriber presubmitProwJobEvent =
                 Some (presubmitJobHandler None)) by reflexivity.
  exact (proj2 (selected_handler_returns_spec_or_error subscriber
                  presubmitProwJobEvent (presubmitJobHandler None) cfg
                  hansEvent world Hsel)).
Defined.

(** An empty payload under the periodic event type. *)
Lemma undecodable_payload_is_not_reported_witness :
  (handleMessage subscriber
     (msg {[ prowEventType := periodicProwJobEvent ]} []) "sub" ["*"]
     world).1 = Some "unexpected end of JSON input".
Proof.
  assert (Hattr : getAttributes
                    (msg {[ prowEventType := periodicProwJobEvent ]} [])
                    !! prowEventType = Some periodicProwJobEvent)
    by reflexivity.
  assert (Hpe : Unmarshal
                  (getPayload
                     (msg {[ prowEventType := periodicProwJobEvent ]} [])) =
                (ghostEvent, Some "unexpected end of JSON input"))
    by reflexivity.
  apply (undecodable_payload_is_not_reported subscriber _ "sub" ["*"] world
           periodicProwJobEvent ghostEvent "unexpected end of JSON input"
           Hattr (or_introl eq_refl) Hpe).
Defined.

(** No periodic is called [ghost]: the error comes back unchanged. *)
Lemma resolution_failure_is_reported_and_returned_witness :
  (handleProwJob subscriber periodicJobHandler (msg ∅ [Byte.x03]) "sub"
     ["*"] world).1 =
  Some ("failed to find associated periodic job " +:+ Quote "ghost") ∧
  ∃ reported,
    CalledReport reported ∈
      Trace (handleProwJob subscriber periodicJobHandler (msg ∅ [Byte.x03])
               "sub" ["*"] world).2 ∧
    prowapi.State (prowapi.Status reported) = prowapi.ErrorState ∧
    prowapi.Spec reported = prowapi.emptySpec.
Proof.
  assert (Hpe : Unmarshal (getPayload (msg ∅ [Byte.x03])) = (ghostEvent, None))
    by reflexivity.
  assert (Hres : getProwJobSpec periodicJobHandler (ConfigAgent subscriber)
                   ghostEvent world =
                 ((None, None,
                   Some ("failed to find associated periodic job " +:+
                         Quote "ghost")),
                  (periodic_getProwJobSpec cfg ghostEvent world).2))
    by reflexivity.
  destruct (resolution_failure_is_reported_and_returned subscriber
              periodicJobHandler (msg ∅ [Byte.x03]) "sub" ["*"] world
              ghostEvent None None _ _ Hpe Hres) as (Hout & Htrace & _).
  split; [exact Hout|].
  eexists. split.
  - rewrite Htrace. apply elem_of_app. right.
    apply elem_of_cons. right. apply elem_of_cons. right.
    apply elem_of_cons. left. reflexivity.
  - split; reflexivity.
Defined.

(** The backend of the instantiation accepts [hans]. *)
Lemma backend_answer_is_reported_and_returned_witness :
  ∃ sent reported,
    (handleProwJob subscriber (presubmitJobHandler None) (msg ∅ [Byte.x01])
       "sub" ["*"] world).1 = None ∧
    CalledCreate sent ∈
      Trace (handleProwJob subscriber (presubmitJobHandler None)
               (msg ∅ [Byte.x01]) "sub" ["*"] world).2 ∧
    CalledReport reported ∈
      Trace (handleProwJob subscriber (presubmitJobHandler None)
               (msg ∅ [Byte.x01]) "sub" ["*"] world).2 ∧
    prowapi.Spec reported = prowapi.Spec sent ∧
    prowapi.State (prowapi.Status reported) = prowapi.TriggeredState.
Proof.
  assert (Hpe : Unmarshal (getPayload (msg ∅ [Byte.x01])) = (hansEvent, None))
    by reflexivity.
  assert (Hres : getProwJobSpec (presubmitJobHandler None)
                   (ConfigAgent subscriber) hansEvent world =
                 ((Some (PresubmitSpec hans mainRefs), Some 2%positive, None),
                  (presubmit_getProwJobSpec None cfg hansEvent world).2))
    by reflexivity.
  destruct (backend_answer_is_reported_and_returned subscriber
              (presubmitJobHandler None) (msg ∅ [Byte.x01]) "sub" ["*"]
              world hansEvent (PresubmitSpec hans mainRefs) (Some 2%positive)
              _ Hpe Hres eq_refl)
    as (sent & reported & Hout & Htrace & _ & _ & _ & Hspec & Hstatus).
  assert (Hcreate : Create (Client subscriber) sent = None) by reflexivity.
  rewrite Hcreate in Hout, Htrace, Hstatus.
  exists sent, reported. split; [exact Hout|].
  split; [|split; [|split]].
  - rewrite Htrace. apply elem_of_app. right. apply elem_of_cons. by left.
  - rewrite Htrace. apply elem_of_app. right.
    apply elem_of_cons. right. apply elem_of_cons. right.
    apply elem_of_cons. right. apply elem_of_cons. left. reflexivity.
  - exact Hspec.
  - by rewrite Hstatus.
Defined.

(** After [hans] is dispatched its definition is owned by the event. *)
Lemma event_labels_are_written_into_the_job_definition_witness :
  labelsOf (Some 2%positive)
    (handleProwJob subscriber (presubmitJobHandler None) (msg ∅ [Byte.x01])
       "sub" ["*"] world).2 !! "owner" = Some "event".
Proof.
  assert (Hpe : Unmarshal (getPayload (msg ∅ [Byte.x01])) = (hansEvent, None))
    by reflexivity.
  assert (Hres : getProwJobSpec (presubmitJobHandler None)
                   (ConfigAgent subscriber) hansEvent world =
                 ((Some (PresubmitSpec hans mainRefs), Some 2%positive, None),
                  (presubmit_getProwJobSpec None cfg hansEvent world).2))
    by reflexivity.
  assert (Hsome : is_Some
                    (LabelMaps
                       (presubmit_getProwJobSpec None cfg hansEvent world).2
                       !! 2%positive))
    by (eexists; reflexivity).
  destruct (event_labels_are_written_into_the_job_definition subscriber
              (presubmitJobHandler None) (msg ∅ [Byte.x01]) "sub" ["*"]
              world hansEvent (PresubmitSpec hans mainRefs) 2%positive _
              fixture_rangeMap_lawful Hpe Hres eq_refl Hsome) as [Hlabels _].
  etrans;
    [exact (f_equal (λ m : gmap string string, m !! "owner") Hlabels)|].
  reflexivity.
Defined.

(** The postsubmit [hans] has no labels: the record carries the event's
    and the map of [nightly] stays. *)
Lemma job_without_labels_gets_a_fresh_map_witness :
  (∃ submitted,
     CalledCreate submitted ∈
       Trace (handleProwJob subscriber (postsubmitJobHandler None)
                (msg ∅ [Byte.x01]) "sub" ["*"] world).2 ∧
     prowapi.Labels submitted = {[ "owner" := "event" ]}) ∧
  LabelMaps
    (handleProwJob subscriber (postsubmitJobHandler None) (msg ∅ [Byte.x01])
       "sub" ["*"] world).2 !! 1%positive =
  Some {[ "owner" := "sig-testing" ]}.
Proof.
  assert (Hpe : Unmarshal (getPayload (msg ∅ [Byte.x01])) = (hansEvent, None))
    by reflexivity.
  assert (Hres : getProwJobSpec (postsubmitJobHandler None)
                   (ConfigAgent subscriber) hansEvent world =
                 ((Some (PostsubmitSpec hansPost mainRefs), None, None),
                  (postsubmit_getProwJobSpec None cfg hansEvent world).2))
    by reflexivity.
  assert (Hsome : is_Some
                    (LabelMaps
                       (postsubmit_getProwJobSpec None cfg hansEvent world).2
                       !! 1%positive))
    by (eexists; reflexivity).
  destruct (job_without_labels_gets_a_fresh_map subscriber
              (postsubmitJobHandler None) (msg ∅ [Byte.x01]) "sub" ["*"]
              world hansEvent (PostsubmitSpec hansPost mainRefs) _
              fixture_rangeMap_lawful Hpe Hres eq_refl)
    as [(submitted & rest & Htrace & _ & Hlabels & _) Hkept].
  split.
  - exists submitted. split.
    + rewrite Htrace. apply elem_of_app. right. apply elem_of_cons. by left.
    + etrans; [exact Hlabels|]. reflexivity.
  - etrans; [exact (Hkept 1%positive Hsome)|]. reflexivity.
Defined.

(** [hans] has two containers, one with a variable; the event has one
    entry. *)
Lemma sent_record_gains_one_variable_per_entry_witness :
  ∃ submitted pod' c0 c1,
    CalledCreate submitted ∈
      Trace (handleProwJob subscriber (presubmitJobHandler None)
               (msg ∅ [Byte.x01]) "sub" ["*"] world).2 ∧
    prowapi.PodSpec (prowapi.Spec submitted) = Some pod' ∧
    coreapi.Containers pod' !! 0 = Some c0 ∧
    coreapi.Containers pod' !! 1 = Some c1 ∧
    length (coreapi.Env c0) = 2 ∧ length (coreapi.Env c1) = 1.
Proof.
  assert (Hpe : Unmarshal (getPayload (msg ∅ [Byte.x01])) = (hansEvent, None))
    by reflexivity.
  assert (Hres : getProwJobSpec (presubmitJobHandler None)
                   (ConfigAgent subscriber) hansEvent world =
                 ((Some (PresubmitSpec hans mainRefs), Some 2%positive, None),
                  (presubmit_getProwJobSpec None cfg hansEvent world).2))
    by reflexivity.
  destruct (sent_record_gains_one_variable_per_entry subscriber
              (presubmitJobHandler None) (msg ∅ [Byte.x01]) "sub" ["*"]
              world hansEvent (PresubmitSpec hans mainRefs) (Some 2%positive)
              _ fixture_rangeMap_lawful Hpe Hres eq_refl)
    as (submitted & rest & Htrace & _ & Hpod).
  destruct (Hpod pod eq_refl) as (pod' & Hpod' & _ & Hcs).
  destruct (Hcs 0 _ eq_refl) as (c0 & Hc0 & Hlen0).
  destruct (Hcs 1 _ eq_refl) as (c1 & Hc1 & Hlen1).
  exists submitted, pod', c0, c1.
  split; [|split; [exact Hpod'|split; [exact Hc0|split; [exact Hc1|split]]]].
  - rewrite Htrace. apply elem_of_app. right. apply elem_of_cons. by left.
  - etrans; [exact Hlen0|]. reflexivity.
  - etrans; [exact Hlen1|]. reflexivity.
Defined.

(** [hans] carries refs and is still published as a periodic event. *)
Lemma ToMessage_marks_every_event_periodic_witness :
  (handleMessage subscriber
     {| getAttributes := {[ prowEventType := periodicProwJobEvent ]};
        getPayload := [Byte.x01]; getID := EmptyString |}
     "sub" ["*"] world).1 =
  Some ("failed to find associated periodic job " +:+ Quote "hans").
Proof.
  assert (Hto : ToMessage hansEvent =
                (Some {| getAttributes :=
                           {[ prowEventType := periodicProwJobEvent ]};
                         getPayload := [Byte.x01]; getID := EmptyString |},
                 None)) by reflexivity.
  assert (Hpe : Unmarshal [Byte.x01] = (hansEvent, None)) by reflexivity.
  apply (ToMessage_marks_every_event_periodic subscriber hansEvent _ "sub"
           ["*"] world Hto Hpe).
  intros job Hin. apply list_elem_of_singleton in Hin. subst job.
  discriminate.
Defined.
